(** * x-algorithm-score: the controversy scanner and the scoring engine

    A shallow embedding of [src/lib/scandal-detector.ts] (the pattern-based
    controversy scanner) and of the scoring engine that consumes it, with the
    properties the specification states about them.

    - A JavaScript string is a sequence of UTF-16 code units: [jsString]
      is [list N].
    - The rule tables hold regular expressions without the [u] flag; they are
      embedded as a small regular-expression syntax with the semantics of
      [RegExp.prototype.test] (there is no [g] or [y] flag, so [test] keeps no
      state between calls).
    - Numbers are IEEE doubles in the source.  Penalties are small integers
      ([Z]); [riskScore] is [totalPenalty * 2.5], a multiple of one half below
      2^53, so the double arithmetic is exact and is modelled in [Q]. *)

From Stdlib Require Import List Bool Arith ZArith NArith QArith Qminmax Qround.
From Stdlib Require Import Lia Lqa.
From Stdlib Require Import String Ascii DecimalString.
From Stdlib Require Import Sorting.Sorted Sorting.Permutation.
Import ListNotations.

Set Implicit Arguments.

(* ================================================================== *)
(** * Code units and character classes *)
(* ================================================================== *)

Module CodeUnit.

Local Open Scope N_scope.

(** A string as the engine sees it: UTF-16 code units. *)
Definition jsString := list N.

(** The code units of an ASCII literal of the source. *)
Definition ofString (s : string) : jsString :=
  map N_of_ascii (list_ascii_of_string s).

Definition inRange (lo hi c : N) : bool := (lo <=? c) && (c <=? hi).

Definition isUpper (c : N) : bool := inRange 65 90 c.
Definition isLower (c : N) : bool := inRange 97 122 c.
Definition isDigit (c : N) : bool := inRange 48 57 c.

(** [\w] and the word characters of [\b]: [A-Za-z0-9_].  Without the [u]
    flag the [i] flag adds nothing to this set. *)
Definition isWordChar (c : N) : bool :=
  isUpper c || isLower c || isDigit c || (c =? 95).

(** [\s]: ECMAScript WhiteSpace and LineTerminator code units. *)
Definition isSpace (c : N) : bool :=
  inRange 9 13 c || (c =? 32) || (c =? 160) || (c =? 5760)
  || inRange 8192 8202 c || (c =? 8232) || (c =? 8233) || (c =? 8239)
  || (c =? 8287) || (c =? 12288) || (c =? 65279).

(** ASCII upper-casing, the only part of Canonicalize that can relate two
    different code units when the pattern character is ASCII: a code unit
    of 128 or more is never canonicalized to one below 128. *)
Definition toUpperAscii (c : N) : N := if isLower c then c - 32 else c.

(** A pattern character [p] under the [i] flag. *)
Definition eqIgnoreCase (p c : N) : bool :=
  if isUpper p || isLower p then toUpperAscii c =? toUpperAscii p
  else c =? p.

End CodeUnit.
Import CodeUnit.

(* ================================================================== *)
(** * Regular expressions of the rule tables *)
(* ================================================================== *)

Module RegExp.

(** The syntax the twenty patterns use.  Every quantified atom of the
    tables ([\s*], [\s+], [\w+], [!{3,}], [\?{3,}], [[A-Z\s]{30,}]) is a
    single character class, so [Rep] quantifies a class; [?] is applied to
    characters and to groups. *)
Inductive regex : Type :=
| Eps                                   (* the empty pattern *)
| Cls (p : N -> bool)                   (* one code unit of a class *)
| WordB                                 (* \b *)
| Seq (a b : regex)                     (* ab *)
| Alt (a b : regex)                     (* a|b *)
| Rep (min : nat) (p : N -> bool)       (* [p]{min,} *)
| Opt (a : regex).                      (* a? *)

(** A position in the subject: the code unit before it (if any) and the
    text from it on. *)
Definition pos := (option N * jsString)%type.

Definition isWordBefore (x : pos) : bool :=
  match fst x with Some c => isWordChar c | None => false end.

Definition isWordAfter (x : pos) : bool :=
  match snd x with c :: _ => isWordChar c | [] => false end.

(** One code unit of class [p]. *)
Definition stepCls (p : N -> bool) (x : pos) : list pos :=
  match snd x with
  | c :: s => if p c then [(Some c, s)] else []
  | [] => []
  end.

(** Zero or more code units of class [p]: every position reachable. *)
Fixpoint many (p : N -> bool) (prev : option N) (s : jsString) : list pos :=
  (prev, s) ::
  match s with
  | c :: s' => if p c then many p (Some c) s' else []
  | [] => []
  end.

(** At least [min] code units of class [p]. *)
Fixpoint atLeast (min : nat) (p : N -> bool) (prev : option N) (s : jsString)
  : list pos :=
  match min with
  | O => many p prev s
  | S k =>
      match s with
      | c :: s' => if p c then atLeast k p (Some c) s' else []
      | [] => []
      end
  end.

(** [ends r x]: the positions at which a match of [r] begun at [x] can
    end.  A backtracking matcher without back-references or look-around
    finds a match exactly when this set is not empty. *)
Fixpoint ends (r : regex) (x : pos) : list pos :=
  match r with
  | Eps => [x]
  | Cls p => stepCls p x
  | WordB => if xorb (isWordBefore x) (isWordAfter x) then [x] else []
  | Seq a b => flat_map (ends b) (ends a x)
  | Alt a b => ends a x ++ ends b x
  | Rep min p => atLeast min p (fst x) (snd x)
  | Opt a => ends a x ++ [x]
  end.

(** Every start position of a subject, the end of the text included. *)
Fixpoint starts (prev : option N) (s : jsString) : list pos :=
  (prev, s) ::
  match s with
  | c :: s' => starts (Some c) s'
  | [] => []
  end.

Definition matchesAt (r : regex) (x : pos) : bool :=
  match ends r x with [] => false | _ :: _ => true end.

(** [pattern.test(text)] *)
Definition test (r : regex) (t : jsString) : bool :=
  existsb (matchesAt r) (starts None t).

(** ** Reading a pattern literal

    The rule tables are kept as the source spells them; [parse] reads the
    part of the ECMAScript pattern grammar they use: alternation, groups,
    literal characters, the escapes [\b], [\s], [\w] and escaped
    punctuation, bracket classes of characters, ranges and class escapes,
    and the quantifiers [*], [+], [{n,}] on a character atom and [?] on a
    character atom or a group.  Anything else is refused ([None]). *)

Inductive atom : Type :=
| AChar (p : N -> bool)
| AGroup (r : regex)
| AAssert (r : regex).

Definition mkSeq (a b : regex) : regex :=
  match b with Eps => a | _ => Seq a b end.

Definition isChar (a : ascii) (s : string) : bool :=
  match s with
  | String b EmptyString => Ascii.eqb a b
  | _ => false
  end.

Definition code (a : ascii) : N := N_of_ascii a.

(** A pattern character: compared under canonicalization with the [i]
    flag, exactly without it. *)
Definition litChar (ic : bool) (a : ascii) : N -> bool :=
  if ic then eqIgnoreCase (code a) else N.eqb (code a).

(** A bracket class under the [i] flag accepts a code unit when one of its
    case variants is in the class. *)
Definition classFold (ic : bool) (p : N -> bool) : N -> bool :=
  if ic
  then fun c => p c || p (toUpperAscii c)
                || (if isUpper c then p (c + 32)%N else false)
  else p.

Definition orP (p q : N -> bool) : N -> bool := fun c => p c || q c.

(** The members of a bracket class up to the closing bracket. *)
Fixpoint parseClass (fuel : nat) (s : list ascii)
  : option ((N -> bool) * list ascii) :=
  match fuel with
  | O => None
  | S f =>
      match s with
      | [] => None
      | a :: s1 =>
          if isChar a "]" then Some ((fun _ => false), s1)
          else if isChar a "\" then
            match s1 with
            | e :: s2 =>
                let here :=
                  if isChar e "s" then Some isSpace
                  else if isChar e "w" then Some isWordChar
                  else if isWordChar (code e) then None
                  else Some (N.eqb (code e)) in
                match here, parseClass f s2 with
                | Some p, Some (q, rest) => Some (orP p q, rest)
                | _, _ => None
                end
            | [] => None
            end
          else
            match s1 with
            | d :: hi :: s3 =>
                if isChar d "-" && negb (isChar hi "]") then
                  match parseClass f s3 with
                  | Some (q, rest) =>
                      Some (orP (inRange (code a) (code hi)) q, rest)
                  | None => None
                  end
                else
                  match parseClass f s1 with
                  | Some (q, rest) => Some (orP (N.eqb (code a)) q, rest)
                  | None => None
                  end
            | _ =>
                match parseClass f s1 with
                | Some (q, rest) => Some (orP (N.eqb (code a)) q, rest)
                | None => None
                end
            end
      end
  end.

(** Decimal digits of a [{n,}] quantifier. *)
Fixpoint parseNat (acc : nat) (s : list ascii) : nat * list ascii :=
  match s with
  | a :: s' =>
      if isDigit (code a)
      then parseNat (10 * acc + N.to_nat (code a - 48)) s'
      else (acc, s)
  | [] => (acc, s)
  end.

(** The quantifier after an atom, if any. *)
Definition quantify (a : atom) (s : list ascii)
  : option (regex * list ascii) :=
  let plain :=
    match a with
    | AChar p => Cls p
    | AGroup r => r
    | AAssert r => r
    end in
  match s with
  | q :: s1 =>
      if isChar q "*" then
        match a with AChar p => Some (Rep 0 p, s1) | _ => None end
      else if isChar q "+" then
        match a with AChar p => Some (Rep 1 p, s1) | _ => None end
      else if isChar q "?" then
        match a with
        | AChar p => Some (Opt (Cls p), s1)
        | AGroup r => Some (Opt r, s1)
        | AAssert _ => None
        end
      else if isChar q "{" then
        match s1 with
        | d :: _ =>
            if isDigit (code d) then
              match parseNat 0 s1 with
              | (n, c :: b :: s2) =>
                  if isChar c "," && isChar b "}" then
                    match a with
                    | AChar p => Some (Rep n p, s2)
                    | _ => None
                    end
                  else None
              | _ => None
              end
            else None
        | [] => None
        end
      else Some (plain, s)
  | [] => Some (plain, s)
  end.

Inductive level : Type := LAlt | LSeq | LItem.

(** Recursive descent over the pattern; [fuel] bounds the nesting and the
    length, [ic] is the [i] flag. *)
Fixpoint parseAt (fuel : nat) (ic : bool) (l : level) (s : list ascii)
  : option (regex * list ascii) :=
  match fuel with
  | O => None
  | S f =>
      match l with
      | LAlt =>
          match parseAt f ic LSeq s with
          | Some (a, bar :: s1) =>
              if isChar bar "|" then
                match parseAt f ic LAlt s1 with
                | Some (b, rest) => Some (Alt a b, rest)
                | None => None
                end
              else Some (a, bar :: s1)
          | other => other
          end
      | LSeq =>
          match s with
          | [] => Some (Eps, [])
          | c :: _ =>
              if isChar c "|" || isChar c ")" then Some (Eps, s)
              else
                match parseAt f ic LItem s with
                | Some (a, s1) =>
                    match parseAt f ic LSeq s1 with
                    | Some (b, rest) => Some (mkSeq a b, rest)
                    | None => None
                    end
                | None => None
                end
          end
      | LItem =>
          match s with
          | [] => None
          | c :: s1 =>
              if isChar c "(" then
                match parseAt f ic LAlt s1 with
                | Some (r, close :: s2) =>
                    if isChar close ")" then quantify (AGroup r) s2
                    else None
                | _ => None
                end
              else if isChar c "[" then
                match parseClass (S (List.length s1)) s1 with
                | Some (p, s2) => quantify (AChar (classFold ic p)) s2
                | None => None
                end
              else if isChar c "\" then
                match s1 with
                | e :: s2 =>
                    if isChar e "b" then quantify (AAssert WordB) s2
                    else if isChar e "s" then quantify (AChar isSpace) s2
                    else if isChar e "w" then quantify (AChar isWordChar) s2
                    else if isWordChar (code e) then None
                    else quantify (AChar (N.eqb (code e))) s2
                | [] => None
                end
              else if isChar c "." || isChar c "^" || isChar c "$"
                      || isChar c "*" || isChar c "+" || isChar c "?"
                      || isChar c "{" || isChar c "}" || isChar c "]"
              then None
              else quantify (AChar (litChar ic c)) s1
          end
      end
  end.

(** A whole pattern literal. *)
Definition parse (ic : bool) (src : string) : option regex :=
  let s := list_ascii_of_string src in
  match parseAt (2 * List.length s + 2) ic LAlt s with
  | Some (r, []) => Some r
  | _ => None
  end.

End RegExp.
Import RegExp.

(* ================================================================== *)
(** * The controversy scanner ([src/lib/scandal-detector.ts]) *)
(* ================================================================== *)

Module Scanner.

Local Open Scope string_scope.

Inductive Severity : Type := low | medium | high | critical.

Inductive RiskLevel : Type := safe | caution | risky | dangerous.

(** The type [ControversyCategory] of the source, [identity_attack]
    included. *)
Inductive ControversyCategory : Type :=
| offensive_language
| hot_button_topic
| inflammatory_tone
| rage_bait
| misinfo_pattern
| targeted_attack
| identity_attack.

Record ControversyWarning : Type := mkWarning {
  category : ControversyCategory;
  severity : Severity;
  message : string;
  detail : string;
  penalty : Z
}.

Record ControversyResult : Type := mkResult {
  riskLevel : RiskLevel;
  riskScore : Q;
  warnings : list ControversyWarning;
  totalPenalty : Z
}.

(** An entry of a rule table: the pattern literal with its [i] flag, the
    severity and the detail text. *)
Record Rule : Type := mkRule {
  source : string;
  ignoreCase : bool;
  ruleSeverity : Severity;
  ruleDetail : string
}.

Definition OFFENSIVE_PATTERNS : list Rule :=
  [ mkRule "\b(shut\s*up|stfu|gtfo|idiot|moron|dumb\s*ass|stupid\s*(people|person))\b"
      true medium
      "Direct insults often trigger blocks/mutes (-74x penalty each)";
    mkRule "\b(kill\s*(yourself|urself|them)|die\s+in|hope\s+you\s+die|death\s+threat)\b"
      true critical
      "Violent language triggers reports (-369x) and potential account suspension";
    mkRule "\b(retard(ed)?|spaz|cripple)\b"
      true high
      "Ableist language is widely reported and triggers content moderation";
    mkRule "\b(trash\s*(person|people|human)|garbage\s*(person|people|human)|worthless)\b"
      true medium
      "Dehumanizing language drives reports and blocks" ].

Definition HOT_BUTTON_PATTERNS : list Rule :=
  [ mkRule "\b(all\s+(men|women|liberals|conservatives|republicans|democrats)\s+(are|should))\b"
      true high
      "Broad group generalizations trigger mass reports from the targeted group";
    mkRule "\b(fake\s+news|mainstream\s+media\s+lies|msm\s+is\s+(lying|dead))\b"
      true medium
      "Media criticism patterns often get flagged as misinformation";
    mkRule "\b(wake\s+up\s+sheeple|sheep\s+mentality|npcs?\b)"
      true medium
      "Dismissive language about others' intelligence triggers blocks (-74x)" ].

Definition INFLAMMATORY_PATTERNS : list Rule :=
  [ mkRule "\b(fight\s+me|come\s+at\s+me|say\s+it\s+to\s+my\s+face|square\s+up)\b"
      true medium
      "Confrontational tone drives blocks and mutes rather than constructive replies";
    mkRule "\b(you('re|\s+are)\s+(wrong|an?\s+idiot|stupid|clueless|delusional))\b"
      true high
      "Personal attacks on individuals generate reports and blocks at high rates";
    mkRule "\b(everyone\s+who\s+(disagrees|thinks)\s+is\s+(wrong|stupid|an?\s+idiot))\b"
      true high
      "Dismissing all disagreement signals toxicity to the algorithm";
    mkRule "(!{3,}|\?{3,}|[A-Z\s]{30,})"
      false low
      "Excessive caps/punctuation reads as shouting — reduces perceived quality" ].

Definition RAGE_BAIT_PATTERNS : list Rule :=
  [ mkRule "\b(ratio|ratio\s*this|you\s+got\s+ratio('d|ed))\b"
      true low
      "Ratio culture drives negative engagement — blocks outweigh any reply boost";
    mkRule "\b(cope\s+harder|stay\s+mad|die\s+mad|seethe|cry\s+(about\s+it|more|harder))\b"
      true medium
      "Dismissive provocation generates blocks (-74x) far more than positive engagement";
    mkRule "\b(this\s+will\s+trigger|watch\s+them\s+(lose|melt)|gonna\s+make\s+people\s+mad)\b"
      true medium
      "Intentional provocation is the fastest path to reports (-369x) and algorithmic debt" ].

Definition TARGETED_ATTACK_PATTERNS : list Rule :=
  [ mkRule "@\w+\s+(is\s+(trash|garbage|worst|terrible|a\s+fraud|a\s+scam|lying))\b"
      true high
      "Directly attacking named users triggers their followers to report en masse";
    mkRule "\b(doxx|dox|expose\s+them|leak\s+(their|the)\s+(address|info|number))\b"
      true critical
      "Doxxing references trigger immediate reports and potential account suspension";
    mkRule "\b(cancel\s+(this|them|her|him)|let's\s+cancel|needs?\s+to\s+be\s+cancelled)\b"
      true high
      "Cancel mob calls generate mass reports from the target's community" ].

Definition MISINFO_PATTERNS : list Rule :=
  [ mkRule "\b(exposed|exposed!|they\s+don'?t\s+want\s+you\s+to\s+know|the\s+truth\s+(they|about))\b"
      true low
      "Conspiracy-adjacent framing may trigger content moderation review";
    mkRule "\b(do\s+your\s+(own\s+)?research|look\s+it\s+up\s+yourself|i'?m\s+just\s+asking\s+questions)\b"
      true low
      "JAQ-ing (just asking questions) pattern is flagged by content classifiers";
    mkRule "\b(100%\s+proven|scientifically\s+proven|doctors?\s+(don'?t|won'?t)\s+tell\s+you)\b"
      true medium
      "False authority claims on health/science topics trigger community notes and reports" ].

Definition SEVERITY_PENALTY (s : Severity) : Z :=
  match s with
  | low => 2
  | medium => 5
  | high => 10
  | critical => 20
  end.

(** [pattern.test(text)] for the pattern of a rule. *)
Definition ruleTest (r : Rule) (t : jsString) : bool :=
  match parse (ignoreCase r) (source r) with
  | Some re => test re t
  | None => false
  end.

(** The object pushed for a matching rule. *)
Definition warningOf (cat : ControversyCategory) (categoryMessage : string)
    (r : Rule) : ControversyWarning :=
  {| category := cat;
     severity := ruleSeverity r;
     message := categoryMessage;
     detail := ruleDetail r;
     penalty := SEVERITY_PENALTY (ruleSeverity r) |}.

(** The closure [scanPatterns]: one pass over a table, pushing onto the
    [warnings] array, which is threaded through as state. *)
Definition scanPatterns (t : jsString) (patterns : list Rule)
    (cat : ControversyCategory) (categoryMessage : string)
    (warnings : list ControversyWarning) : list ControversyWarning :=
  fold_left
    (fun ws r =>
       if ruleTest r t
       then (ws ++ [warningOf cat categoryMessage r])%list
       else ws)
    patterns warnings.

(** The comparator handed to [Array.prototype.sort]. *)
Definition compareWarnings (a b : ControversyWarning) : Z :=
  SEVERITY_PENALTY (severity b) - SEVERITY_PENALTY (severity a).

(** [Array.prototype.sort] is stable; with a consistent comparator its
    result is the stable sorted arrangement, computed here by insertion:
    an element moves behind exactly those it compares greater than. *)
Section Sort.
Variable A : Type.
Variable cmp : A -> A -> Z.

Fixpoint insertSorted (w : A) (l : list A) : list A :=
  match l with
  | [] => [w]
  | y :: l' =>
      if (0 <? cmp w y)%Z then y :: insertSorted w l' else w :: y :: l'
  end.

Definition sortBy (l : list A) : list A :=
  fold_right insertSorted [] l.
End Sort.

(** The array [warnings] after the six calls of [scanPatterns]. *)
Definition collectWarnings (t : jsString) : list ControversyWarning :=
  let ws := [] in
  let ws := scanPatterns t OFFENSIVE_PATTERNS offensive_language
              "Offensive language detected" ws in
  let ws := scanPatterns t HOT_BUTTON_PATTERNS hot_button_topic
              "Polarizing topic pattern detected" ws in
  let ws := scanPatterns t INFLAMMATORY_PATTERNS inflammatory_tone
              "Inflammatory tone detected" ws in
  let ws := scanPatterns t RAGE_BAIT_PATTERNS rage_bait
              "Rage bait pattern detected" ws in
  let ws := scanPatterns t TARGETED_ATTACK_PATTERNS targeted_attack
              "Targeted attack pattern detected" ws in
  let ws := scanPatterns t MISINFO_PATTERNS misinfo_pattern
              "Misinformation-adjacent pattern detected" ws in
  ws.

Definition sumPenalties (ws : list ControversyWarning) : Z :=
  fold_left (fun sum w => (sum + penalty w)%Z) ws 0%Z.

(** [Math.min(100, totalPenalty * 2.5)] *)
Definition riskScoreOf (totalPenalty : Z) : Q :=
  Qmin 100 (inject_Z totalPenalty * (5 # 2)).

Definition riskLevelOf (riskScore : Q) : RiskLevel :=
  if Qle_bool 60 riskScore then dangerous
  else if Qle_bool 30 riskScore then risky
  else if Qle_bool 10 riskScore then caution
  else safe.

Definition scanForControversy (t : jsString) : ControversyResult :=
  let warnings := collectWarnings t in
  let totalPenalty := sumPenalties warnings in
  let riskScore := riskScoreOf totalPenalty in
  let riskLevel := riskLevelOf riskScore in
  {| riskLevel := riskLevel;
     riskScore := riskScore;
     warnings := sortBy compareWarnings warnings;
     totalPenalty := totalPenalty |}.

End Scanner.
Import Scanner.

(* ================================================================== *)
(** * Vocabulary for stating the scanner's properties *)
(* ================================================================== *)

Module ScannerOrder.

(** The rule tables in the order [scanForControversy] walks them, each
    with its category and category message. *)
Definition TABLES : list (ControversyCategory * string * list Rule) :=
  [ (offensive_language, "Offensive language detected"%string,
     OFFENSIVE_PATTERNS);
    (hot_button_topic, "Polarizing topic pattern detected"%string,
     HOT_BUTTON_PATTERNS);
    (inflammatory_tone, "Inflammatory tone detected"%string,
     INFLAMMATORY_PATTERNS);
    (rage_bait, "Rage bait pattern detected"%string,
     RAGE_BAIT_PATTERNS);
    (targeted_attack, "Targeted attack pattern detected"%string,
     TARGETED_ATTACK_PATTERNS);
    (misinfo_pattern, "Misinformation-adjacent pattern detected"%string,
     MISINFO_PATTERNS) ].

(** One warning for each rule of a table that matches, in table order. *)
Definition matched (t : jsString)
    (e : ControversyCategory * string * list Rule)
  : list ControversyWarning :=
  let '(cat, msg, rules) := e in
  map (warningOf cat msg) (filter (fun r => ruleTest r t) rules).

(** The warnings in insertion order: category by category, rule by rule. *)
Definition inTableOrder (t : jsString) : list ControversyWarning :=
  flat_map (matched t) TABLES.

(** The number of rules, over all tables, whose pattern matches. *)
Definition matchingRules (t : jsString) : nat :=
  list_sum
    (map (fun e => List.length (filter (fun r => ruleTest r t) (snd e)))
       TABLES).

Definition rank (s : Severity) : nat :=
  match s with
  | low => 0
  | medium => 1
  | high => 2
  | critical => 3
  end.

Definition Severity_eqb (a b : Severity) : bool := Nat.eqb (rank a) (rank b).

(** [a] may stand before [b] in a list of descending severity. *)
Definition notBelow (a b : ControversyWarning) : Prop :=
  (rank (severity b) <= rank (severity a))%nat.

Definition totalOf (ws : list ControversyWarning) : Z :=
  fold_right Z.add 0%Z (map penalty ws).

(** The six categories the scanner is called with. *)
Definition SCANNED_CATEGORIES : list ControversyCategory :=
  [ offensive_language; hot_button_topic; inflammatory_tone; rage_bait;
    targeted_attack; misinfo_pattern ].

(** The violent-language rule and the excessive-caps rule. *)
Definition VIOLENT_RULE : Rule := nth 1 OFFENSIVE_PATTERNS (mkRule "" false low "").
Definition CAPS_RULE : Rule := nth 3 INFLAMMATORY_PATTERNS (mkRule "" false low "").

Definition hasSeverity (s : Severity) (w : ControversyWarning) : bool :=
  Severity_eqb (severity w) s.

(** The class the excessive-caps alternative [[A-Z\s]{30,}] quantifies. *)
Definition capsClass : N -> bool :=
  orP (inRange 65 90) (orP isSpace (fun _ => false)).

(** Sample texts. *)
Definition deathThreatOnly : jsString := ofString "kill yourself".
Definition deathThreatAndMore : jsString := ofString "kill yourself!!! ratio".
Definition attackAndRatio : jsString := ofString "@bob is lying, ratio".
Definition ratioShouted : jsString := ofString "ratio!!!".
Definition ratioOnly : jsString := ofString "ratio".
Definition thirtySpaces : jsString := repeat 32%N 30.
Definition shoutPre : jsString := ofString "well, ".
Definition shoutMid : jsString := ofString "THIS IS WHAT SHOUTING LOOKS LIKE".
Definition shoutPost : jsString := ofString " to me".
Definition manyOffences : jsString :=
  ofString "kill yourself, doxx them, you retard".

End ScannerOrder.
Import ScannerOrder.

(* ================================================================== *)
(** * The scoring engine *)
(* ================================================================== *)

Module Engine.

Local Open Scope Q_scope.

(** The engine's own file, [src/lib/scoring-engine.ts], and the type
    declarations of [src/types/index.ts] are not among the sources.  The
    record shapes below are those the callers and the tests build and read
    ([content/index.tsx], [scoring-engine.test.ts], [ScoreOverlay.test.tsx]);
    the functions are modelled from the specification. *)

Inductive MediaType : Type := image | video | gif | poll | none.

Record DraftTweet : Type := mkTweet {
  text : jsString;
  hasMedia : bool;
  mediaType : MediaType;
  mediaCount : Z;
  isThread : bool;
  threadLength : Z;
  hasQuestion : bool;
  externalLinks : Z;
  hashtags : Z;
  mentions : Z;
  length : Z;
  hasEmoji : bool;
  hasCallToAction : bool;
  isReply : bool;
  quoteTweet : bool
}.

Record UserContext : Type := mkContext {
  followerCount : Z;
  followingCount : Z;
  isVerified : bool;
  isPremium : bool;
  accountAgeMonths : Z;
  avgEngagementRate : Q;
  recentPostFrequency : Z
}.

Inductive Grade : Type := S_ | A_ | B_ | C_ | D_ | F_.

Record Breakdown : Type := mkBreakdown {
  content : Q;
  media : Q;
  timing : Q;
  engagement : Q;
  risk : Q
}.

Inductive Impact : Type := impactHigh | impactMedium | impactLow.
Inductive SuggestionType : Type := positive | negative | neutral.

Record Suggestion : Type := mkSuggestion {
  suggestionType : SuggestionType;
  suggestionCategory : string;
  suggestionMessage : string;
  action : option string;
  impact : Impact
}.

Record PredictedReach : Type := mkReach {
  reachLow : Z;
  reachMedian : Z;
  reachHigh : Z;
  confidence : Q
}.

Inductive FactorStatus : Type := optimal | suboptimal | harmful.

Record AlgorithmFactor : Type := mkFactor {
  factorName : string;
  factorDescription : string;
  weight : Q;
  currentValue : Q;
  optimalRange : Q * Q;
  status : FactorStatus
}.

Record TweetScore : Type := mkScore {
  overall : Z;
  grade : Grade;
  breakdown : Breakdown;
  suggestions : list Suggestion;
  predictedReach : PredictedReach;
  algorithmFactors : list AlgorithmFactor
}.

(** Modelled from the spec: the timestamp the timing score evaluates, as
    far as the score looks at it: hour of the day and day of the week (0 is
    Sunday) in the reference time zone. *)
Record Clock : Type := mkClock {
  hour : Z;
  weekday : Z
}.

(** Modelled from the spec: [src/lib/scoring-engine.ts] and
    [src/types/index.ts] (the default weights) are not among the sources.
    The spec leaves the heuristic constants open and asks for them to be an
    explicit configuration value of the engine; [Weights] is that value.
    What the spec fixes (the component maxima 25/20/15/20, the engagement
    bonuses 8/4/3/2, the risk budget 30 and the scanner's share of one
    third of it, the rounding, the clamp and the grade bands) is written
    into the definitions below. *)
Record Weights : Type := mkWeights {
  lengthValue : Z -> Q;            (* content value of the trimmed length *)
  threadBonus : Q;
  emojiBonus : Q;
  templateContentPenalty : Q;
  isTemplate : jsString -> bool;       (* the fixed low-effort phrase list *)
  isNegative : jsString -> bool;       (* the keyword sentiment check *)
  mediaAward : MediaType -> Q;
  timingMinimum : Q;               (* off-peak hour on a non-peak day *)
  peakBonus : Q;
  weekdayBonus : Q;
  linkPenaltyPremium : Q;          (* per external link *)
  linkPenaltyNonPremium : Q;       (* per external link *)
  hashtagAllowance : Z;
  hashtagPenalty : Q;              (* per hashtag over the allowance *)
  mentionAllowance : Z;
  mentionPenalty : Q;              (* per mention over the allowance *)
  templatePenalty : Q;
  sentimentPenalty : Q;
  defaultContext : UserContext;
  reach : Z -> Z -> bool -> PredictedReach;
  componentSuggestions :
    DraftTweet -> UserContext -> Breakdown -> list Suggestion;
  controversySuggestion : ControversyWarning -> Suggestion;
  factors : DraftTweet -> UserContext -> list AlgorithmFactor
}.

(** Modelled from the spec: the component maxima, the risk budget and the
    scanner's share of it (one third), the constants of the missing engine. *)
Definition CONTENT_MAX : Q := 25.
Definition MEDIA_MAX : Q := 20.
Definition TIMING_MAX : Q := 15.
Definition ENGAGEMENT_MAX : Q := 20.
Definition RISK_BUDGET : Q := 30.
Definition CONTROVERSY_CAP : Q := 10.

Definition clampQ (lo hi x : Q) : Q := Qmax lo (Qmin hi x).
Definition clampZ (lo hi x : Z) : Z := Z.max lo (Z.min hi x).

(** Modelled from the spec: negative counts are clamped to zero before
    use (4.3, last paragraph). *)
Definition count (n : Z) : Q := inject_Z (Z.max 0 n).

Definition when (b : bool) (q : Q) : Q := if b then q else 0.

(** Modelled from the spec: the rounding of [overall]; [Math.round] takes
    halves up. *)
Definition round (x : Q) : Z := Qfloor (x + (1 # 2)).

Section WithWeights.
Variable W : Weights.

(** Modelled from the spec: the content score (4.3, Content). *)
Definition contentScore (t : DraftTweet) : Q :=
  clampQ 0 CONTENT_MAX
    (lengthValue W (Z.max 0 (length t))
     + when (isThread t) (threadBonus W)
     + when (hasEmoji t) (emojiBonus W)
     - when (isTemplate W (text t)) (templateContentPenalty W)).

(** Modelled from the spec: the media score (4.3, Media): an award by
    media type only. *)
Definition mediaScore (t : DraftTweet) : Q :=
  clampQ 0 MEDIA_MAX
    (match mediaType t with
     | none => 0
     | m => mediaAward W m
     end).

(** Modelled from the spec: the peak windows and the weekdays of the
    timing score; the hours are the README's (9am-12pm, 7pm-10pm). *)
Definition inPeakWindow (c : Clock) : bool :=
  ((9 <=? hour c)%Z && (hour c <? 12)%Z)
  || ((19 <=? hour c)%Z && (hour c <? 22)%Z).

Definition isWeekday (c : Clock) : bool :=
  (1 <=? weekday c)%Z && (weekday c <=? 5)%Z.

(** Modelled from the spec: the timing score (4.3, Timing), evaluated on
    the timestamp of the call. *)
Definition timingScore (now : Clock) : Q :=
  clampQ 0 TIMING_MAX
    (timingMinimum W
     + when (inPeakWindow now) (peakBonus W)
     + when (isWeekday now) (weekdayBonus W)).

(** Modelled from the spec: the engagement score (4.3, Engagement). *)
Definition engagementScore (t : DraftTweet) : Q :=
  clampQ 0 ENGAGEMENT_MAX
    (when (hasQuestion t) 8 + when (hasCallToAction t) 4
     + when (quoteTweet t) 3 + when (isReply t) 2).

(** Modelled from the spec: the link penalty per link, by Premium status
    (4.3, Risk). *)
Definition linkPenalty (c : UserContext) : Q :=
  if isPremium c then linkPenaltyPremium W else linkPenaltyNonPremium W.

(** Modelled from the spec: the risk penalty before the clamp to the
    budget (4.3, Risk): links, excess hashtags and mentions, template,
    negative sentiment, and the scanner's total penalty capped at its
    share. *)
Definition rawRisk (t : DraftTweet) (c : UserContext) : Q :=
  linkPenalty c * count (externalLinks t)
  + hashtagPenalty W * count (hashtags t - hashtagAllowance W)
  + mentionPenalty W * count (mentions t - mentionAllowance W)
  + when (isTemplate W (text t)) (templatePenalty W)
  + when (isNegative W (text t)) (sentimentPenalty W)
  + Qmin CONTROVERSY_CAP
      (inject_Z (totalPenalty (scanForControversy (text t)))).

(** Modelled from the spec: the risk penalty (4.3, Risk). *)
Definition riskPenalty (t : DraftTweet) (c : UserContext) : Q :=
  clampQ 0 RISK_BUDGET (rawRisk t c).

(** Modelled from the spec: the grade bands (4.3). *)
Definition gradeOf (overall : Z) : Grade :=
  if (90 <=? overall)%Z then S_
  else if (80 <=? overall)%Z then A_
  else if (65 <=? overall)%Z then B_
  else if (50 <=? overall)%Z then C_
  else if (35 <=? overall)%Z then D_
  else F_.

(** Modelled from the spec: [overall] (4.3): the rounded sum of the four
    scores less the risk, clamped to [0, 100]. *)
Definition overallOf (b : Breakdown) : Z :=
  clampZ 0 100
    (round (content b + media b + timing b + engagement b - risk b)).

(** Modelled from the spec: [scoreTweet(tweet, context?)] (4.3).  The
    timing score evaluates "a caller-supplied or current timestamp"; the
    two arguments carry none and the callers pass none, so it is the time
    of the call, made the explicit input [now]. *)
Definition scoreTweet (now : Clock) (t : DraftTweet)
    (context : option UserContext) : TweetScore :=
  let c := match context with Some c => c | None => defaultContext W end in
  let scan := scanForControversy (text t) in
  let b := {| content := contentScore t;
              media := mediaScore t;
              timing := timingScore now;
              engagement := engagementScore t;
              risk := riskPenalty t c |} in
  let overall := overallOf b in
  {| overall := overall;
     grade := gradeOf overall;
     breakdown := b;
     suggestions :=
       (componentSuggestions W t c b
        ++ match warnings scan with
           | w :: _ => [controversySuggestion W w]
           | [] => []
           end)%list;
     predictedReach :=
       reach W overall (followerCount c)
         (match context with Some _ => true | None => false end);
     algorithmFactors := factors W t c |}.

End WithWeights.

End Engine.

(* ================================================================== *)
(** * More vocabulary for the scanner *)
(* ================================================================== *)

Module ScannerShapes.

(** A text up to the case of its ASCII letters. *)
Definition upperAscii (t : jsString) : jsString := map toUpperAscii t.

(** A class that cannot tell the case of an ASCII letter. *)
Definition blind (p : N -> bool) : Prop :=
  forall c, p (toUpperAscii c) = p c.

(** A pattern all of whose classes are blind to case. *)
Inductive CaseBlind : regex -> Prop :=
| CaseBlind_Eps : CaseBlind Eps
| CaseBlind_Cls p : blind p -> CaseBlind (Cls p)
| CaseBlind_WordB : CaseBlind WordB
| CaseBlind_Seq a b : CaseBlind a -> CaseBlind b -> CaseBlind (Seq a b)
| CaseBlind_Alt a b : CaseBlind a -> CaseBlind b -> CaseBlind (Alt a b)
| CaseBlind_Rep n p : blind p -> CaseBlind (Rep n p)
| CaseBlind_Opt a : CaseBlind a -> CaseBlind (Opt a).

(** The position [x] with the case of the letters around it forgotten. *)
Definition upperPos (x : pos) : pos :=
  (option_map toUpperAscii (fst x), upperAscii (snd x)).

(** A pattern that can only start at a word boundary. *)
Fixpoint headWordB (r : regex) : bool :=
  match r with
  | WordB => true
  | Seq a _ => headWordB a
  | Alt a b => headWordB a && headWordB b
  | _ => false
  end.

Definition ruleHeadWordB (r : Rule) : bool :=
  match parse (ignoreCase r) (source r) with
  | Some re => headWordB re
  | None => false
  end.

(** The rule that looks for an attack on a named account, [@\w+\s+(is ...)]. *)
Definition NAMED_ATTACK_RULE : Rule :=
  nth 0 TARGETED_ATTACK_PATTERNS (mkRule "" false low "").

(** The warning of the excessive caps/punctuation rule. *)
Definition capsWarning : ControversyWarning :=
  warningOf inflammatory_tone "Inflammatory tone detected" CAPS_RULE.

(** A text without a word character ([A-Za-z0-9_]). *)
Definition wordless (t : jsString) : Prop :=
  Forall (fun c => isWordChar c = false) t.

(** All the rules, table after table. *)
Definition ALL_RULES : list Rule := flat_map snd TABLES.

End ScannerShapes.
Import ScannerShapes.

(* ================================================================== *)
(** * JavaScript values and [chrome.storage.local] *)
(* ================================================================== *)

Module JS.

Local Open Scope string_scope.

(** The JSON-like values that settings, messages and the storage area
    hold, with [undefined] for what a lookup of a missing property gives.
    An object is its own string-keyed properties in insertion order. *)
#[local] Unset Elimination Schemes.
Inductive JSVal : Type :=
| VUndefined
| VNull
| VBool (b : bool)
| VNum (q : Q)
| VStr (s : string)
| VArr (items : list JSVal)
| VObj (props : list (string * JSVal)).
#[local] Set Elimination Schemes.

Definition JSObject := list (string * JSVal).

(** ToBoolean. *)
Definition truthy (v : JSVal) : bool :=
  match v with
  | VUndefined | VNull => false
  | VBool b => b
  | VNum q => negb (Qeq_bool q 0)
  | VStr s => negb (String.eqb s "")
  | VArr _ | VObj _ => true
  end.

Definition nullish (v : JSVal) : bool :=
  match v with
  | VUndefined | VNull => true
  | _ => false
  end.

(** [a ?? b], [a || b] and [a && b]. *)
Definition coalesce (a b : JSVal) : JSVal := if nullish a then b else a.
Definition jsOr (a b : JSVal) : JSVal := if truthy a then a else b.
Definition jsAnd (a b : JSVal) : JSVal := if truthy a then b else a.

(** [v === true] *)
Definition isTrue (v : JSVal) : bool :=
  match v with
  | VBool true => true
  | _ => false
  end.

(** [o[k]] on the properties of an object: [undefined] when missing. *)
Fixpoint getProp (k : string) (o : JSObject) : JSVal :=
  match o with
  | [] => VUndefined
  | (k', v) :: o' => if String.eqb k k' then v else getProp k o'
  end.

(** [o[k] = v]: an existing property keeps its place, a new one goes last. *)
Fixpoint setProp (k : string) (v : JSVal) (o : JSObject) : JSObject :=
  match o with
  | [] => [(k, v)]
  | (k', v') :: o' =>
      if String.eqb k k' then (k, v) :: o' else (k', v') :: setProp k v o'
  end.

(** [Object.keys(o)] *)
Definition keys (o : JSObject) : list string := map fst o.

(** [delete o[k]] *)
Fixpoint removeProp (k : string) (o : JSObject) : JSObject :=
  match o with
  | [] => []
  | (k', v') :: o' =>
      if String.eqb k k' then removeProp k o' else (k', v') :: removeProp k o'
  end.

(** The decimal spelling of an integer, as [String(n)] gives it. *)
Definition decimal (z : Z) : string :=
  DecimalString.NilZero.string_of_int (Z.to_int z).

Fixpoint indexed (i : nat) (l : list JSVal) : JSObject :=
  match l with
  | [] => []
  | v :: l' => (decimal (Z.of_nat i), v) :: indexed (S i) l'
  end.

Definition chars (s : string) : list JSVal :=
  map (fun c => VStr (String c EmptyString)) (list_ascii_of_string s).

(** The own enumerable properties that [{...v}] copies. *)
Definition ownProps (v : JSVal) : JSObject :=
  match v with
  | VObj o => o
  | VArr l => indexed 0 l
  | VStr s => indexed 0 (chars s)
  | _ => []
  end.

(** [{...target, ...v}] continued: the properties of [v] defined on
    [target] one after the other. *)
Definition spread (target : JSObject) (v : JSVal) : JSObject :=
  fold_left (fun o kv => setProp (fst kv) (snd kv) o) (ownProps v) target.

(** [v.k] for a key that is no built-in property of strings or arrays. *)
Definition member (v : JSVal) (k : string) : JSVal :=
  match v with
  | VObj o => getProp k o
  | _ => VUndefined
  end.

(** What [[...v]] iterates over; [None] when [v] is not iterable and the
    spread throws a TypeError. *)
Definition iterate (v : JSVal) : option (list JSVal) :=
  match v with
  | VArr l => Some l
  | VStr s => Some (chars s)
  | _ => None
  end.

(** [l.slice(-n)]: the last [n] elements. *)
Definition sliceLast (n : nat) (l : list JSVal) : list JSVal :=
  skipn (List.length l - n) l.

(** The storage area: [get(k)] is [getProp], [set({k: v})] is [setProp],
    [remove(k)] is [removeProp]. *)
Definition Store := JSObject.

(** An asynchronous computation against the storage area, run to its end:
    the area it leaves and either the message of the Error it rejects with
    or the value it resolves to. *)
Definition Async (T : Type) : Type := Store -> Store * (string + T).

End JS.
Import JS.

(* ================================================================== *)
(** * The background service worker ([src/background/index.ts]) *)
(* ================================================================== *)

Module Background.

Local Open Scope string_scope.

Record RuntimeMessage : Type := mkMessage {
  type : string;
  payload : JSVal            (* [undefined] when the message has none *)
}.

Section WithDefaults.

(** [DEFAULT_SETTINGS] is declared in [src/types/index.ts], which is not
    among the sources: it is a parameter here. *)
Variable DEFAULT_SETTINGS : JSObject.

(** [Array.isArray(scoreHistory) && scoreHistory.length > 0] *)
Definition isActiveUser (scoreHistory : JSVal) : bool :=
  match scoreHistory with
  | VArr l => Nat.ltb 0 (List.length l)
  | _ => false
  end.

(** The object literal [migrated] of the [onInstalled] listener, for the
    stored settings and [isActiveUser]. *)
Definition migrate (settings : JSVal) (isActiveUser : bool) : JSObject :=
  setProp "animationsEnabled"
    (coalesce (member settings "animationsEnabled") (VBool true))
    (setProp "aiConsentAccepted"
       (coalesce (member settings "aiConsentAccepted") (VBool false))
       (setProp "onboardingCompleted"
          (coalesce (member settings "onboardingCompleted")
             (VBool isActiveUser))
          (spread (spread [] (VObj DEFAULT_SETTINGS)) settings))).

(** The [onInstalled] listener, for [details.reason]. *)
Definition onInstalled (reason : string) (st : Store) : Store :=
  let st :=
    if String.eqb reason "install"
    then setProp "settings" (VObj DEFAULT_SETTINGS) st
    else st in
  if String.eqb reason "update" then
    let settings := getProp "settings" st in
    let scoreHistory := getProp "scoreHistory" st in
    if negb (truthy settings) then
      setProp "settings" (VObj DEFAULT_SETTINGS) st
    else
      let isActiveUser := isActiveUser scoreHistory in
      let migrated := migrate settings isActiveUser in
      setProp "settings" (VObj migrated) st
  else st.

(** [logScoreHistory]: the history keeps its last 100 entries.  A stored
    value that cannot be spread makes the [try] block throw; the [catch]
    logs the error and the storage area stays as it was. *)
Definition logScoreHistory (scoreData : JSVal) (st : Store) : Store :=
  let scoreHistory :=
    match getProp "scoreHistory" st with
    | VUndefined => VArr []
    | v => v
    end in
  match iterate scoreHistory with
  | Some l =>
      let updatedHistory := sliceLast 100 (l ++ [scoreData]) in
      setProp "scoreHistory" (VArr updatedHistory) st
  | None => st
  end.

Definition success : JSVal := VObj [("success", VBool true)].
Definition unknownType : JSVal :=
  VObj [("error", VStr "Unknown message type")].

(** The [onMessage] listener with the asynchronous work it starts run to
    its end: the storage area it leaves and the value given to
    [sendResponse]. *)
Definition onMessage (message : RuntimeMessage) (st : Store)
  : Store * JSVal :=
  if String.eqb (type message) "GET_SETTINGS" then
    (st, jsOr (getProp "settings" st) (VObj DEFAULT_SETTINGS))
  else if String.eqb (type message) "SAVE_SETTINGS" then
    (setProp "settings" (payload message) st, success)
  else if String.eqb (type message) "LOG_SCORE" then
    ((if truthy (payload message)
      then logScoreHistory (payload message) st
      else st),
     success)
  else (st, unknownType).

(** A call of [logScoreHistory] suspended at one of its two [await]s:
    before its [get] has resolved, or, with [updatedHistory] computed,
    before its [set] has. *)
Inductive LogCall : Type :=
| awaitingGet (scoreData : JSVal)
| awaitingSet (updatedHistory : list JSVal).

(** The worker between two events: the storage area and the calls of
    [logScoreHistory] in flight, oldest first.  The listener starts such a
    call and does not await it, so several can be in flight at once, and
    nothing orders the [get] of one against the [set] of another. *)
Record Worker : Type := mkWorker {
  storage : Store;
  inFlight : list LogCall
}.

Definition idle (st : Store) : Worker := mkWorker st [].

(** What happens next: a message reaches the listener, or the storage call
    that the [i]-th call in flight awaits completes. *)
Inductive Event : Type :=
| received (message : RuntimeMessage)
| resumed (i : nat).

(** [logScoreHistory] from one [await] to the next: the storage area it
    leaves, and the call if it goes on.  A stored value that cannot be
    spread ends the call in its [catch]. *)
Definition resume (call : LogCall) (st : Store) : Store * option LogCall :=
  match call with
  | awaitingGet scoreData =>
      let scoreHistory :=
        match getProp "scoreHistory" st with
        | VUndefined => VArr []
        | v => v
        end in
      match iterate scoreHistory with
      | Some l =>
          let updatedHistory := sliceLast 100 (l ++ [scoreData]) in
          (st, Some (awaitingSet updatedHistory))
      | None => (st, None)
      end
  | awaitingSet updatedHistory =>
      (setProp "scoreHistory" (VArr updatedHistory) st, None)
  end.

(** The listener on a message: LOG_SCORE with a payload starts
    [logScoreHistory] and answers at once; the other types make their one
    storage call, as in [onMessage]. *)
Definition receive (message : RuntimeMessage) (w : Worker) : Worker :=
  if String.eqb (type message) "LOG_SCORE" then
    if truthy (payload message)
    then mkWorker (storage w)
           (inFlight w ++ [awaitingGet (payload message)])
    else w
  else mkWorker (fst (onMessage message (storage w))) (inFlight w).

Definition step (e : Event) (w : Worker) : Worker :=
  match e with
  | received message => receive message w
  | resumed i =>
      match nth_error (inFlight w) i with
      | None => w
      | Some call =>
          let (st, next) := resume call (storage w) in
          mkWorker st
            (firstn i (inFlight w)
             ++ match next with Some call' => [call'] | None => [] end
             ++ skipn (S i) (inFlight w))
      end
  end.

Definition run (events : list Event) (w : Worker) : Worker :=
  fold_left (fun w e => step e w) events w.

(** Messages that do not overlap: what each one starts has run to its end
    before the next one arrives. *)
Definition inTurn (messages : list RuntimeMessage) : list Event :=
  flat_map (fun m => [received m; resumed 0; resumed 0]) messages.

(** Two messages that overlap: both arrive, and the calls they start both
    read the history before either writes it. *)
Definition overlapping (first second : RuntimeMessage) : list Event :=
  [received first; received second;
   resumed 0; resumed 1; resumed 0; resumed 0].

(** The three fields the update migration fills in. *)
Definition MIGRATED_FIELDS : list string :=
  ["onboardingCompleted"; "aiConsentAccepted"; "animationsEnabled"].

End WithDefaults.

End Background.

(* ================================================================== *)
(** * The runtime helpers and the consent guard ([src/lib/runtime.ts]) *)
(* ================================================================== *)

Module Runtime.

Local Open Scope string_scope.

(** What the page can reach of the extension runtime when a message is
    sent: whether [chrome.runtime.sendMessage] exists, and the
    [chrome.runtime.lastError] the callback finds, if any. *)
Record Channel : Type := mkChannel {
  runtimeAvailable : bool;
  lastError : option string
}.

Section WithDefaults.

Variable DEFAULT_SETTINGS : JSObject.

(** [sendRuntimeMessage]: the message goes to the listener of the
    background worker.  With [lastError] set the promise rejects; the
    message is then taken not to have reached the listener. *)
Definition sendRuntimeMessage (ch : Channel)
    (message : Background.RuntimeMessage) : Async JSVal :=
  fun st =>
    if negb (runtimeAvailable ch) then
      (st, inl "Chrome runtime is not available in this context.")
    else
      match lastError ch with
      | Some err => (st, inl err)
      | None =>
          let (st', response) :=
            Background.onMessage DEFAULT_SETTINGS message st in
          (st', inr response)
      end.

End WithDefaults.

(** [withConsent(action, consentKey, showModal)] *)
Definition withConsent (T : Type) (action : Async T) (consentKey : string)
    (showModal : Async bool) : Async T :=
  fun st =>
    let consentAccepted := isTrue (getProp consentKey st) in
    if consentAccepted then action st
    else
      match showModal st with
      | (st1, inl err) => (st1, inl err)
      | (st1, inr accepted) =>
          if accepted
          then action (setProp consentKey (VBool true) st1)
          else (st1, inl "Consent declined")
      end.

(** The default of [consentKey]. *)
Definition DEFAULT_CONSENT_KEY : string := "aiConsentAccepted".

End Runtime.

(* ================================================================== *)
(** * The diagnostics ([src/lib/diagnostics.ts]) *)
(* ================================================================== *)

Module Diagnostics.

Local Open Scope string_scope.

Record DiagnosticCheck : Type := mkCheck {
  id : string;
  name : string;
  passed : JSVal;
  message : string;
  action : string;
  fixUrl : option string;
  onFix : option (Async unit)
}.

Section WithDefaults.

Variable DEFAULT_SETTINGS : JSObject.

(** What the [catch] block of [checkSettings] returns. *)
Definition unableToCheck : DiagnosticCheck :=
  {| id := "settings";
     name := "Extension enabled";
     passed := VBool false;
     message := "Unable to check settings";
     action := "Enable in Settings";
     fixUrl := None;
     onFix := None |}.

(** [checkSettings].  Reading [settings.enabled] off a response that is
    [undefined] or [null] throws, as a rejected message does. *)
Definition checkSettings (ch : Runtime.Channel) (st : Store)
  : Store * DiagnosticCheck :=
  match Runtime.sendRuntimeMessage DEFAULT_SETTINGS ch
          (Background.mkMessage "GET_SETTINGS" VUndefined) st with
  | (st', inr settings) =>
      if nullish settings then (st', unableToCheck)
      else
        let bothEnabled :=
          jsAnd (member settings "enabled")
            (member settings "showScoreInComposer") in
        (st',
         {| id := "settings";
            name := "Extension enabled";
            passed := bothEnabled;
            message :=
              if truthy bothEnabled
              then "Extension enabled and overlay visible"
              else "Extension disabled";
            action := "Enable in Settings";
            fixUrl := None;
            onFix :=
              Some (fun st2 =>
                      match Runtime.sendRuntimeMessage DEFAULT_SETTINGS ch
                              (Background.mkMessage "SAVE_SETTINGS"
                                 (VObj (setProp "showScoreInComposer"
                                          (VBool true)
                                          (setProp "enabled" (VBool true)
                                             (spread [] settings)))))
                              st2 with
                      | (st3, inl err) => (st3, inl err)
                      | (st3, inr _) => (st3, inr tt)
                      end) |})
  | (st', inl _) => (st', unableToCheck)
  end.

End WithDefaults.

End Diagnostics.

(* ================================================================== *)
(** * The score overlay ([src/content/components/ScoreOverlay.tsx]) *)
(* ================================================================== *)

Module Overlay.

Local Open Scope string_scope.

(** [weight] of [topSuggestion]'s comparator. *)
Definition weight (i : Engine.Impact) : Z :=
  match i with
  | Engine.impactHigh => 3
  | Engine.impactMedium => 2
  | Engine.impactLow => 1
  end.

Definition impactOf (s : Engine.Suggestion) : Z := weight (Engine.impact s).

Definition compareSuggestions (a b : Engine.Suggestion) : Z :=
  weight (Engine.impact b) - weight (Engine.impact a).

(** The function given to [useMemo] for [topSuggestion]: the first of the
    suggestions sorted by impact. *)
Definition computeTopSuggestion (showSuggestions : bool)
    (score : option Engine.TweetScore) : option Engine.Suggestion :=
  if negb showSuggestions then None
  else
    match score with
    | None => None
    | Some s =>
        match Engine.suggestions s with
        | [] => None
        | l => hd_error (sortBy compareSuggestions l)
        end
    end.

(** What a render of the component sees: [showSuggestions], the [score]
    prop, and the identity of the array [score?.suggestions], which is what
    [useMemo] compares with [Object.is] ([None] for [undefined]). *)
Record Render : Type := mkRender {
  showSuggestions : bool;
  score : option Engine.TweetScore;
  suggestionsRef : option nat
}.

(** The cell of [useMemo]: the dependency of the render that last ran the
    function, and the value it returned. *)
Record Memo : Type := mkMemo {
  lastDependency : option nat;
  memoized : option Engine.Suggestion
}.

(** [Object.is] on two dependencies. *)
Definition sameDependency (a b : option nat) : bool :=
  match a, b with
  | None, None => true
  | Some x, Some y => Nat.eqb x y
  | _, _ => false
  end.

(** [useMemo(..., [score?.suggestions])] at a render: the function runs on
    the first render and when the dependency has changed; otherwise the
    cell is kept, whatever [showSuggestions] has become. *)
Definition useMemo (cell : option Memo) (r : Render) : Memo :=
  let fresh :=
    mkMemo (suggestionsRef r)
      (computeTopSuggestion (showSuggestions r) (score r)) in
  match cell with
  | None => fresh
  | Some m =>
      if sameDependency (lastDependency m) (suggestionsRef r)
      then m else fresh
  end.

(** The cell after the renders so far. *)
Definition rendered (before : list Render) : option Memo :=
  fold_left (fun cell r => Some (useMemo cell r)) before None.

(** [topSuggestion] at a render, after the renders [before] it. *)
Definition topSuggestion (before : list Render) (r : Render)
  : option Engine.Suggestion :=
  memoized (useMemo (rendered before) r).

(** No array is changed in place between two renders: the same identity
    holds the same suggestions (and [undefined] comes with the same, absent,
    score). *)
Definition unmutated (r1 r2 : Render) : Prop :=
  suggestionsRef r1 = suggestionsRef r2 ->
  option_map Engine.suggestions (score r1)
  = option_map Engine.suggestions (score r2).

Inductive Tab : Type := tabSuggestions | tabBreakdown | tabFactors.

(** The tab list that is rendered. *)
Definition tabs (showSuggestions : bool) : list Tab :=
  if showSuggestions
  then [tabSuggestions; tabBreakdown; tabFactors]
  else [tabBreakdown; tabFactors].

(** [next] of a tab's [onKeyDown], for the tab at [idx] of [len] tabs;
    [%] is the remainder that takes the sign of the dividend. *)
Definition nextIndex (len idx : Z) (key : string) : Z :=
  let dir := (if String.eqb key "ArrowRight" then 1 else (-1))%Z in
  Z.rem (idx + dir + len) len.

(** The tab a key press on the tab at [idx] makes active; other keys than
    the two arrows leave the active tab as it is. *)
Definition onTabKeyDown (arr : list Tab) (idx : nat) (key : string)
    (activeTab : Tab) : option Tab :=
  if negb (String.eqb key "ArrowLeft") && negb (String.eqb key "ArrowRight")
  then Some activeTab
  else
    nth_error arr
      (Z.to_nat (nextIndex (Z.of_nat (List.length arr)) (Z.of_nat idx) key)).

End Overlay.

(* ================================================================== *)
(** * The popup's history tab ([src/popup/Popup.tsx]) *)
(* ================================================================== *)

Module Popup.

Local Open Scope string_scope.

(** [formatTime], with [now] for [Date.now()].  A timestamp is an integer
    number of milliseconds as [Date.now()] gives them, or [None] for one
    that makes the difference not finite. *)
Definition formatTime (now : Z) (timestamp : option Z) : string :=
  match timestamp with
  | None => ""
  | Some ts =>
      let deltaMs := (now - ts)%Z in
      let sec := (deltaMs / 1000)%Z in
      if (sec <? 60)%Z then "just now"
      else
        let min := (sec / 60)%Z in
        if (min <? 60)%Z then decimal min ++ "m ago"
        else
          let hr := (min / 60)%Z in
          if (hr <? 24)%Z then decimal hr ++ "h ago"
          else
            let day := (hr / 24)%Z in
            decimal day ++ "d ago"
  end.

(** The list the history tab shows for a stored [scoreHistory]. *)
Definition historyView (scoreHistory : JSVal) : list JSVal :=
  match scoreHistory with
  | VArr l => rev l
  | _ => []
  end.

(** [handleRevokeAIConsent], its effect on the storage area. *)
Definition revokeAIConsent (st : Store) : Store :=
  setProp "aiConsentAccepted" (VBool false) st.

(** [clearHistory] once confirmed. *)
Definition clearHistory (st : Store) : Store :=
  removeProp "scoreHistory" st.

End Popup.

(* ================================================================== *)
(** * Sample inputs for the extension's storage and messages *)
(* ================================================================== *)

Module ExtensionSamples.

Local Open Scope string_scope.

(** A death threat and an insult, in mixed case and in lower case. *)
Definition mixedCaseThreat : jsString := ofString "Kill Yourself, IDIOT".
Definition lowerCaseThreat : jsString := ofString "kill yourself, idiot".

(** Punctuation and blanks only, ending in three exclamation marks. *)
Definition punctuationOnly : jsString := ofString "?!... !!!".

(** A sample value for the defaults (the real ones are in
    [src/types/index.ts]). *)
Definition sampleDefaults : JSObject :=
  [ ("enabled", VBool true);
    ("showScoreInComposer", VBool true);
    ("showSuggestions", VBool true);
    ("minScoreAlert", VNum 50);
    ("analyticsEnabled", VBool false);
    ("onboardingCompleted", VBool false);
    ("aiConsentAccepted", VBool false);
    ("animationsEnabled", VBool true) ].

(** Settings stored by an older version: the overlay switched off, a
    stricter alert, none of the newer fields. *)
Definition legacySettings : JSObject :=
  [ ("enabled", VBool false); ("minScoreAlert", VNum 70) ].

(** A [ScoreLogEntry]. *)
Definition logEntry (score timestamp : Z) : JSVal :=
  VObj [ ("score", VNum (inject_Z score));
         ("predictedReach",
          VObj [ ("low", VNum 100); ("median", VNum 500);
                 ("high", VNum 1200); ("confidence", VNum (7 # 10)) ]);
         ("timestamp", VNum (inject_Z timestamp)) ].

Definition firstEntry : JSVal := logEntry 72 1700000000000.
Definition secondEntry : JSVal := logEntry 85 1700000060000.
Definition thirdEntry : JSVal := logEntry 41 1700000120000.

Definition legacyStore : Store :=
  [ ("settings", VObj legacySettings); ("scoreHistory", VArr [firstEntry]) ].

Definition openChannel : Runtime.Channel :=
  {| Runtime.runtimeAvailable := true; Runtime.lastError := None |}.

(** A modal the user accepts, one the user declines, and an action that
    leaves the storage area alone. *)
Definition acceptingModal : Async bool := fun st => (st, inr true).
Definition decliningModal : Async bool := fun st => (st, inr false).
Definition analysis : Async string := fun st => (st, inr "analysis").

(** A score with three suggestions, and two renders of the overlay on it:
    with suggestions shown, then with suggestions switched off in the
    settings, the score being the same object. *)
Definition addMedia : Engine.Suggestion :=
  {| Engine.suggestionType := Engine.neutral;
     Engine.suggestionCategory := "media";
     Engine.suggestionMessage := "Add an image or a video";
     Engine.action := None;
     Engine.impact := Engine.impactMedium |}.

Definition dropLink : Engine.Suggestion :=
  {| Engine.suggestionType := Engine.negative;
     Engine.suggestionCategory := "risk";
     Engine.suggestionMessage := "Remove the external link";
     Engine.action := None;
     Engine.impact := Engine.impactHigh |}.

Definition askQuestion : Engine.Suggestion :=
  {| Engine.suggestionType := Engine.positive;
     Engine.suggestionCategory := "engagement";
     Engine.suggestionMessage := "End with a question";
     Engine.action := None;
     Engine.impact := Engine.impactHigh |}.

Definition sampleScore : Engine.TweetScore :=
  {| Engine.overall := 48;
     Engine.grade := Engine.D_;
     Engine.breakdown :=
       {| Engine.content := 18; Engine.media := 0; Engine.timing := 12;
          Engine.engagement := 2; Engine.risk := 20 |};
     Engine.suggestions := [addMedia; dropLink; askQuestion];
     Engine.predictedReach :=
       {| Engine.reachLow := 100; Engine.reachMedian := 500;
          Engine.reachHigh := 1200; Engine.confidence := 7 # 10 |};
     Engine.algorithmFactors := [] |}.

Definition shownRender : Overlay.Render :=
  Overlay.mkRender true (Some sampleScore) (Some 1%nat).
Definition hiddenRender : Overlay.Render :=
  Overlay.mkRender false (Some sampleScore) (Some 1%nat).

End ExtensionSamples.

(* ================================================================== *)
(** * Facts about the matcher *)
(* ================================================================== *)

Module RegExpFacts.

(** A position inside a text is one of its start positions. *)
Lemma starts_app (pre s : jsString) (prev : option N) :
  exists before, In (before, s) (starts prev (pre ++ s)).
Proof.
  revert prev; induction pre as [|c pre IH]; intros prev.
  - exists prev. destruct s; simpl; auto.
  - destruct (IH (Some c)) as [before Hin].
    exists before. simpl. right. exact Hin.
Qed.

(** A run of class members reaches at least the required count. *)
Lemma atLeast_run (p : N -> bool) (mid : jsString) :
  Forall (fun c => p c = true) mid ->
  forall (n : nat) (prev : option N) (post : jsString),
    (n <= List.length mid)%nat ->
    atLeast n p prev (mid ++ post) <> [].
Proof.
  induction 1 as [|c mid Hc Hmid IH]; intros n prev post Hn.
  - simpl in Hn. assert (n = 0%nat) by lia; subst n.
    simpl. destruct post; discriminate.
  - destruct n as [|n].
    + simpl. discriminate.
    + simpl. rewrite Hc. apply IH. simpl in Hn; lia.
Qed.

Lemma test_intro (r : regex) (t : jsString) (x : pos) :
  In x (starts None t) -> ends r x <> [] -> test r t = true.
Proof.
  intros Hin Hne. unfold test. apply existsb_exists.
  exists x; split; [assumption|].
  unfold matchesAt. destruct (ends r x); [contradiction|reflexivity].
Qed.

End RegExpFacts.

(* ================================================================== *)
(** * Facts about the scanner *)
(* ================================================================== *)

Module ScannerFacts.

(** Every pattern literal of the tables is read by [parse]. *)
Lemma tables_parse :
  forallb
    (fun r =>
       match parse (ignoreCase r) (source r) with
       | Some _ => true
       | None => false
       end)
    (flat_map snd TABLES) = true.
Proof. vm_compute. reflexivity. Qed.

Lemma scanPatterns_filter t rules cat msg ws :
  scanPatterns t rules cat msg ws
  = ws ++ map (warningOf cat msg) (filter (fun r => ruleTest r t) rules).
Proof.
  unfold scanPatterns. revert ws.
  induction rules as [|r rules IH]; intros ws; simpl.
  - now rewrite app_nil_r.
  - rewrite IH. destruct (ruleTest r t); simpl.
    + now rewrite <- app_assoc.
    + reflexivity.
Qed.

Lemma collectWarnings_inTableOrder t :
  collectWarnings t = inTableOrder t.
Proof.
  unfold collectWarnings, inTableOrder.
  rewrite !scanPatterns_filter. simpl.
  rewrite app_nil_r, <- !app_assoc. reflexivity.
Qed.

Lemma sumPenalties_totalOf ws : sumPenalties ws = totalOf ws.
Proof.
  unfold sumPenalties, totalOf.
  assert (G : forall acc,
             fold_left (fun sum w => (sum + penalty w)%Z) ws acc
             = (acc + fold_right Z.add 0 (map penalty ws))%Z).
  { induction ws as [|w ws IH]; intros acc; simpl.
    - lia.
    - rewrite IH. lia. }
  rewrite G. lia.
Qed.

(** ** The sort *)

Lemma insertSorted_perm (w : ControversyWarning) l :
  Permutation (insertSorted compareWarnings w l) (w :: l).
Proof.
  induction l as [|y l IH]; simpl.
  - apply Permutation_refl.
  - destruct (0 <? compareWarnings w y)%Z.
    + eapply perm_trans; [apply perm_skip, IH | apply perm_swap].
    + apply Permutation_refl.
Qed.

Lemma sortBy_perm l : Permutation (sortBy compareWarnings l) l.
Proof.
  induction l as [|w l IH]; simpl.
  - constructor.
  - eapply perm_trans; [apply insertSorted_perm | now apply perm_skip].
Qed.

Lemma penalty_rank a b :
  (SEVERITY_PENALTY a < SEVERITY_PENALTY b)%Z <-> (rank a < rank b)%nat.
Proof. destruct a, b; simpl; split; intros; lia. Qed.

Lemma compare_pos_iff w y :
  (0 <? compareWarnings w y)%Z = true
  <-> (rank (severity w) < rank (severity y))%nat.
Proof.
  unfold compareWarnings. rewrite Z.ltb_lt, <- penalty_rank. lia.
Qed.

Lemma notBelow_trans a b c : notBelow a b -> notBelow b c -> notBelow a c.
Proof. unfold notBelow; lia. Qed.

Lemma insertSorted_sorted w l :
  StronglySorted notBelow l ->
  StronglySorted notBelow (insertSorted compareWarnings w l).
Proof.
  induction 1 as [|y l Hs IH Hall]; simpl.
  - repeat constructor.
  - destruct (0 <? compareWarnings w y)%Z eqn:E.
    + apply compare_pos_iff in E.
      constructor; [assumption|].
      apply (Permutation_Forall (Permutation_sym (insertSorted_perm w l))).
      constructor; [unfold notBelow; lia | assumption].
    + assert (Hwy : notBelow w y).
      { unfold notBelow.
        destruct (Nat.lt_ge_cases (rank (severity w)) (rank (severity y)))
          as [Hlt|]; [|assumption].
        apply compare_pos_iff in Hlt. congruence. }
      constructor; [constructor; assumption|].
      constructor; [assumption|].
      eapply Forall_impl; [|exact Hall].
      intros z Hz. eapply notBelow_trans; eassumption.
Qed.

Lemma sortBy_sorted l : StronglySorted notBelow (sortBy compareWarnings l).
Proof.
  induction l as [|w l IH]; simpl.
  - constructor.
  - now apply insertSorted_sorted.
Qed.

(** Insertion never carries an element past one of its own severity. *)
Lemma insertSorted_filter s w l :
  filter (hasSeverity s) (insertSorted compareWarnings w l)
  = filter (hasSeverity s) (w :: l).
Proof.
  induction l as [|y l IH]; simpl.
  - reflexivity.
  - destruct (0 <? compareWarnings w y)%Z eqn:E.
    + apply compare_pos_iff in E. simpl. rewrite IH. simpl.
      unfold hasSeverity, Severity_eqb.
      destruct (Nat.eqb (rank (severity w)) (rank s)) eqn:Ew;
        destruct (Nat.eqb (rank (severity y)) (rank s)) eqn:Ey;
        try reflexivity.
      apply Nat.eqb_eq in Ew, Ey. lia.
    + reflexivity.
Qed.

Lemma sortBy_stable s l :
  filter (hasSeverity s) (sortBy compareWarnings l)
  = filter (hasSeverity s) l.
Proof.
  induction l as [|w l IH]; simpl.
  - reflexivity.
  - rewrite insertSorted_filter. simpl. now rewrite IH.
Qed.

(** ** The warnings and the penalty *)

Lemma warnings_perm t :
  Permutation (warnings (scanForControversy t)) (inTableOrder t).
Proof.
  unfold scanForControversy; simpl.
  rewrite collectWarnings_inTableOrder. apply sortBy_perm.
Qed.

Lemma totalOf_perm l l' : Permutation l l' -> totalOf l = totalOf l'.
Proof.
  unfold totalOf. induction 1; simpl; lia.
Qed.

Lemma inTableOrder_In t w :
  In w (inTableOrder t) <->
  exists cat msg rules r,
    In (cat, msg, rules) TABLES /\ In r rules /\ ruleTest r t = true
    /\ w = warningOf cat msg r.
Proof.
  unfold inTableOrder. rewrite in_flat_map. split.
  - intros [[[cat msg] rules] [HT Hw]]. simpl in Hw.
    apply in_map_iff in Hw. destruct Hw as [r [Hr Hin]].
    apply filter_In in Hin. destruct Hin as [Hin Ht].
    exists cat, msg, rules, r. auto.
  - intros (cat & msg & rules & r & HT & Hin & Ht & ->).
    exists (cat, msg, rules). split; [assumption|]. simpl.
    apply in_map. apply filter_In. auto.
Qed.

Lemma warnings_In t w :
  In w (warnings (scanForControversy t)) <-> In w (inTableOrder t).
Proof.
  split; apply Permutation_in;
    [apply warnings_perm | apply Permutation_sym, warnings_perm].
Qed.

Lemma penalty_positive t :
  Forall (fun w => (2 <= penalty w)%Z) (inTableOrder t).
Proof.
  apply Forall_forall. intros w Hw.
  apply inTableOrder_In in Hw.
  destruct Hw as (cat & msg & rules & r & _ & _ & _ & ->).
  simpl. destruct (ruleSeverity r); simpl; lia.
Qed.

Lemma totalOf_nonneg l :
  Forall (fun w => (2 <= penalty w)%Z) l -> (0 <= totalOf l)%Z.
Proof.
  unfold totalOf. induction 1; simpl; lia.
Qed.

Lemma totalOf_In l w :
  Forall (fun w => (2 <= penalty w)%Z) l -> In w l ->
  (penalty w <= totalOf l)%Z.
Proof.
  unfold totalOf.
  induction 1 as [|y l Hy Hl IH]; simpl; intros Hin; [contradiction|].
  pose proof (totalOf_nonneg Hl) as Hnn. unfold totalOf in Hnn.
  destruct Hin as [->|Hin]; [lia|].
  specialize (IH Hin). lia.
Qed.

Lemma totalPenalty_totalOf t :
  totalPenalty (scanForControversy t) = totalOf (inTableOrder t).
Proof.
  unfold scanForControversy; simpl.
  now rewrite sumPenalties_totalOf, collectWarnings_inTableOrder.
Qed.

Lemma totalPenalty_nonneg t :
  (0 <= totalPenalty (scanForControversy t))%Z.
Proof.
  rewrite totalPenalty_totalOf. apply totalOf_nonneg, penalty_positive.
Qed.

Lemma totalOf_app l l' : totalOf (l ++ l') = (totalOf l + totalOf l')%Z.
Proof.
  unfold totalOf. induction l as [|w l IH]; simpl; [reflexivity|].
  rewrite IH. lia.
Qed.

Lemma totalOf_matched_le t cat msg rules :
  (totalOf (matched t (cat, msg, rules))
   <= totalOf (map (warningOf cat msg) rules))%Z.
Proof.
  unfold matched, totalOf.
  induction rules as [|r rules IH]; simpl; [lia|].
  assert (0 < SEVERITY_PENALTY (ruleSeverity r))%Z
    by (destruct (ruleSeverity r); simpl; lia).
  destruct (ruleTest r t); simpl; lia.
Qed.

(** With all twenty rules matching the total is 148: the penalties are
    integers far inside the range where the doubles of the source are
    exact, and so are their multiples of 2.5. *)
Lemma totalPenalty_bounded t :
  (0 <= totalPenalty (scanForControversy t) <= 148)%Z.
Proof.
  split; [apply totalPenalty_nonneg|].
  rewrite totalPenalty_totalOf. unfold inTableOrder, TABLES.
  cbn [flat_map]. rewrite !totalOf_app.
  repeat match goal with
         | |- context [totalOf (matched t (?c, ?m, ?rs))] =>
             let H := fresh "H" in
             pose proof (totalOf_matched_le t c m rs) as H;
             let v := eval vm_compute in (totalOf (map (warningOf c m) rs)) in
             change (totalOf (map (warningOf c m) rs)) with v in H;
             generalize dependent (totalOf (matched t (c, m, rs)))
         end.
  intros. change (totalOf []) with 0%Z. lia.
Qed.

(** ** The risk score and the risk level *)

Lemma riskScoreOf_mono p q :
  (p <= q)%Z -> riskScoreOf p <= riskScoreOf q.
Proof.
  intros H. unfold riskScoreOf.
  apply Q.min_le_compat_l.
  apply Qmult_le_compat_r; [|discriminate].
  rewrite <- Zle_Qle. assumption.
Qed.

Lemma riskScoreOf_range p :
  (0 <= p)%Z -> 0 <= riskScoreOf p /\ riskScoreOf p <= 100.
Proof.
  intros H. unfold riskScoreOf. split.
  - apply Q.min_glb; [discriminate|].
    apply Qmult_le_0_compat; [|discriminate].
    change 0 with (inject_Z 0). rewrite <- Zle_Qle. assumption.
  - apply Q.le_min_l.
Qed.

Lemma Qle_bool_false a b : Qle_bool a b = false -> b < a.
Proof.
  intros H. apply Qnot_le_lt. intros Hle.
  apply Qle_bool_iff in Hle. congruence.
Qed.

Lemma riskLevelOf_bands x :
  (60 <= x -> riskLevelOf x = dangerous)
  /\ (30 <= x /\ x < 60 -> riskLevelOf x = risky)
  /\ (10 <= x /\ x < 30 -> riskLevelOf x = caution)
  /\ (x < 10 -> riskLevelOf x = safe).
Proof.
  unfold riskLevelOf.
  destruct (Qle_bool 60 x) eqn:E60;
    [apply Qle_bool_iff in E60 | apply Qle_bool_false in E60];
    (destruct (Qle_bool 30 x) eqn:E30;
     [apply Qle_bool_iff in E30 | apply Qle_bool_false in E30]);
    (destruct (Qle_bool 10 x) eqn:E10;
     [apply Qle_bool_iff in E10 | apply Qle_bool_false in E10]);
    repeat split; intros; try reflexivity; exfalso; lra.
Qed.

End ScannerFacts.

Import RegExpFacts ScannerFacts.

(* ================================================================== *)
(** * The scanner: risk score, risk level, warnings *)
(* ================================================================== *)

(** C2.  For every input text the [riskScore] returned by
    [scanForControversy] is [min(100, totalPenalty * 2.5)]; it lies in
    [0, 100]; and it is monotonically non-decreasing in [totalPenalty]:
    a text with no smaller total penalty has no smaller risk score. *)
Theorem riskScore_formula_range_monotone (t u : jsString) :
  riskScore (scanForControversy t)
  = Qmin 100 (inject_Z (totalPenalty (scanForControversy t)) * (5 # 2))
  /\ 0 <= riskScore (scanForControversy t) <= 100
  /\ ((totalPenalty (scanForControversy t)
       <= totalPenalty (scanForControversy u))%Z ->
      riskScore (scanForControversy t) <= riskScore (scanForControversy u)).
Proof.
  split; [reflexivity|]. split.
  - apply riskScoreOf_range, totalPenalty_nonneg.
  - intros H. apply riskScoreOf_mono. exact H.
Qed.

Lemma riskScore_monotone_witness :
  (totalPenalty (scanForControversy ratioOnly)
   <= totalPenalty (scanForControversy deathThreatOnly))%Z
  /\ riskScore (scanForControversy ratioOnly)
     <= riskScore (scanForControversy deathThreatOnly).
Proof.
  assert (H : (totalPenalty (scanForControversy ratioOnly)
               <= totalPenalty (scanForControversy deathThreatOnly))%Z)
    by (vm_compute; discriminate).
  split; [exact H|].
  exact (proj2 (proj2 (riskScore_formula_range_monotone
                         ratioOnly deathThreatOnly)) H).
Defined.

(** C3.  For every input text the [riskLevel] is [dangerous] when
    [riskScore >= 60], [risky] when [30 <= riskScore < 60], [caution] when
    [10 <= riskScore < 30] and [safe] when [riskScore < 10]; the lower bound
    of each band is inclusive. *)
Theorem riskLevel_thresholds_inclusive (t : jsString) :
  (60 <= riskScore (scanForControversy t) ->
   riskLevel (scanForControversy t) = dangerous)
  /\ (30 <= riskScore (scanForControversy t)
      /\ riskScore (scanForControversy t) < 60 ->
      riskLevel (scanForControversy t) = risky)
  /\ (10 <= riskScore (scanForControversy t)
      /\ riskScore (scanForControversy t) < 30 ->
      riskLevel (scanForControversy t) = caution)
  /\ (riskScore (scanForControversy t) < 10 ->
      riskLevel (scanForControversy t) = safe).
Proof.
  exact (riskLevelOf_bands (riskScore (scanForControversy t))).
Qed.

(** The four bands at work, the first three on their lower bounds: risk
    scores 60, 30, 10 and 5. *)
Lemma four_risk_levels_witness :
  (riskScore (scanForControversy deathThreatAndMore) == 60
   /\ riskLevel (scanForControversy deathThreatAndMore) = dangerous)
  /\ (riskScore (scanForControversy attackAndRatio) == 30
      /\ riskLevel (scanForControversy attackAndRatio) = risky)
  /\ (riskScore (scanForControversy ratioShouted) == 10
      /\ riskLevel (scanForControversy ratioShouted) = caution)
  /\ (riskScore (scanForControversy ratioOnly) == 5
      /\ riskLevel (scanForControversy ratioOnly) = safe).
Proof.
  split; [|split; [|split]]; (split; [vm_compute; reflexivity|]).
  - apply (proj1 (riskLevel_thresholds_inclusive deathThreatAndMore)).
    vm_compute; discriminate.
  - apply (proj1 (proj2 (riskLevel_thresholds_inclusive attackAndRatio))).
    split; vm_compute; [discriminate | reflexivity].
  - apply (proj1 (proj2 (proj2 (riskLevel_thresholds_inclusive ratioShouted)))).
    split; vm_compute; [discriminate | reflexivity].
  - apply (proj2 (proj2 (proj2 (riskLevel_thresholds_inclusive ratioOnly)))).
    vm_compute; reflexivity.
Defined.

(** C4.  For every input text the scanner emits exactly one warning per
    rule whose pattern matches, over all six tables, with no early exit and
    no deduplication: the warnings are, up to their order, the matching
    rules of every table turned into warnings, and there are as many as
    matching rules.  Each warning's penalty is the severity lookup
    (low 2, medium 5, high 10, critical 20), and [totalPenalty] is the plain
    sum of the warnings' penalties. *)
Theorem one_warning_per_matching_rule (t : jsString) :
  Permutation (warnings (scanForControversy t)) (inTableOrder t)
  /\ List.length (warnings (scanForControversy t)) = matchingRules t
  /\ Forall (fun w => penalty w = SEVERITY_PENALTY (severity w))
       (warnings (scanForControversy t))
  /\ (SEVERITY_PENALTY low = 2 /\ SEVERITY_PENALTY medium = 5
      /\ SEVERITY_PENALTY high = 10 /\ SEVERITY_PENALTY critical = 20)%Z
  /\ totalPenalty (scanForControversy t)
     = totalOf (warnings (scanForControversy t)).
Proof.
  pose proof (warnings_perm t) as HP.
  split; [exact HP|]. split; [|split; [|split]].
  - rewrite (Permutation_length HP).
    unfold inTableOrder, matchingRules, TABLES, matched. simpl.
    rewrite !length_app, !length_map. simpl. lia.
  - apply Forall_forall. intros w Hw.
    apply warnings_In, inTableOrder_In in Hw.
    destruct Hw as (cat & msg & rules & r & _ & _ & _ & ->). reflexivity.
  - repeat split.
  - rewrite totalPenalty_totalOf.
    symmetry. apply totalOf_perm, HP.
Qed.

(** The sum is not capped: a text with three grave matches has total
    penalty 50 while its risk score stops at 100. *)
Lemma totalPenalty_uncapped_example :
  totalPenalty (scanForControversy manyOffences) = 50%Z
  /\ riskScore (scanForControversy manyOffences) == 100.
Proof. split; vm_compute; reflexivity. Qed.

(** C7.  For every input text the returned warnings are sorted by
    descending severity, and the warnings of one severity keep their
    insertion order: the order of the tables (offensive_language,
    hot_button_topic, inflammatory_tone, rage_bait, targeted_attack,
    misinfo_pattern), then the order of the rules within a table. *)
Theorem warnings_sorted_stable (t : jsString) :
  StronglySorted notBelow (warnings (scanForControversy t))
  /\ (forall s : Severity,
        filter (hasSeverity s) (warnings (scanForControversy t))
        = filter (hasSeverity s) (inTableOrder t))
  /\ map (fun e => fst (fst e)) TABLES = SCANNED_CATEGORIES.
Proof.
  split; [|split].
  - apply sortBy_sorted.
  - intros s. unfold scanForControversy; simpl.
    rewrite sortBy_stable. now rewrite collectWarnings_inTableOrder.
  - reflexivity.
Qed.

(** C9.  For every input text every returned warning has one of the six
    categories offensive_language, hot_button_topic, inflammatory_tone,
    rage_bait, targeted_attack, misinfo_pattern; none has another category
    (the type's seventh, identity_attack, is never emitted). *)
Theorem warning_categories_closed (t : jsString) :
  Forall (fun w => In (category w) SCANNED_CATEGORIES
                   /\ category w <> identity_attack)
    (warnings (scanForControversy t)).
Proof.
  apply Forall_forall. intros w Hw.
  apply warnings_In, inTableOrder_In in Hw.
  destruct Hw as (cat & msg & rules & r & HT & _ & _ & ->).
  simpl in HT |- *.
  repeat (destruct HT as [HT|HT];
          [injection HT as <- _ _; split; [simpl; tauto | discriminate]|]).
  contradiction.
Qed.

(* ================================================================== *)
(** * The scanner: two rules in particular *)
(* ================================================================== *)

Lemma caps_pattern_parsed :
  parse (ignoreCase CAPS_RULE) (source CAPS_RULE)
  = Some (Alt (Rep 3 (N.eqb 33)) (Alt (Rep 3 (N.eqb 63)) (Rep 30 capsClass))).
Proof. reflexivity. Qed.

Lemma capsClass_member c :
  isUpper c = true \/ isSpace c = true -> capsClass c = true.
Proof.
  unfold capsClass, orP, isUpper. intros [->| ->]; simpl;
    [reflexivity | now rewrite orb_true_r].
Qed.

(** A run of thirty capitals or blanks anywhere makes the caps rule match. *)
Lemma caps_rule_matches (pre mid post : jsString) :
  (30 <= List.length mid)%nat ->
  Forall (fun c => isUpper c = true \/ isSpace c = true) mid ->
  ruleTest CAPS_RULE (pre ++ mid ++ post) = true.
Proof.
  intros Hlen Hmid. unfold ruleTest. rewrite caps_pattern_parsed.
  destruct (starts_app pre (mid ++ post) None) as [before Hin].
  apply (@test_intro _ _ _ Hin).
  cbn [ends fst snd]. intros Hnil.
  apply app_eq_nil in Hnil. destruct Hnil as [_ Hnil].
  apply app_eq_nil in Hnil. destruct Hnil as [_ Hnil].
  revert Hnil. apply atLeast_run; [|assumption].
  eapply Forall_impl; [|exact Hmid]. apply capsClass_member.
Qed.

Lemma rule_warning_emitted t cat msg rules r :
  In (cat, msg, rules) TABLES -> In r rules -> ruleTest r t = true ->
  In (warningOf cat msg r) (warnings (scanForControversy t)).
Proof.
  intros HT Hr Ht. apply warnings_In, inTableOrder_In.
  exists cat, msg, rules, r. auto.
Qed.

(** C8 as stated fails: a text that is a death threat and nothing else
    matches the violent-language rule, gets that one critical warning, a risk
    score of 50 with nothing subtracted from it, and the level [risky], not
    [dangerous]. *)
Lemma death_threat_alone_is_risky :
  ruleTest VIOLENT_RULE deathThreatOnly = true
  /\ warnings (scanForControversy deathThreatOnly)
     = [warningOf offensive_language "Offensive language detected" VIOLENT_RULE]
  /\ riskScore (scanForControversy deathThreatOnly) == 50
  /\ riskLevel (scanForControversy deathThreatOnly) = risky
  /\ riskLevel (scanForControversy deathThreatOnly) <> dangerous.
Proof.
  repeat split; try (vm_compute; reflexivity). discriminate.
Qed.

(** C8, amended.  For every text that the violent-language rule matches the
    scanner returns a warning of category offensive_language with severity
    critical and penalty 20; the total penalty is at least 20, the risk score
    at least 50, and the level is [risky] or [dangerous].  It is [dangerous]
    exactly when the risk score reaches 60, that is when the other matching
    rules bring the total penalty to 24 or more. *)
Theorem death_threat_critical_at_least_risky (t : jsString) :
  ruleTest VIOLENT_RULE t = true ->
  (exists w, In w (warnings (scanForControversy t))
             /\ category w = offensive_language
             /\ severity w = critical /\ penalty w = 20%Z)
  /\ (20 <= totalPenalty (scanForControversy t))%Z
  /\ 50 <= riskScore (scanForControversy t)
  /\ (riskLevel (scanForControversy t) = risky
      \/ riskLevel (scanForControversy t) = dangerous)
  /\ (riskLevel (scanForControversy t) = dangerous
      <-> 60 <= riskScore (scanForControversy t))
  /\ (60 <= riskScore (scanForControversy t)
      <-> (24 <= totalPenalty (scanForControversy t))%Z).
Proof.
  intros Hm.
  assert (Hin : In (warningOf offensive_language
                      "Offensive language detected" VIOLENT_RULE)
                  (warnings (scanForControversy t))).
  { apply rule_warning_emitted with (rules := OFFENSIVE_PATTERNS);
      [simpl; auto | simpl; auto | exact Hm]. }
  assert (H20 : (20 <= totalPenalty (scanForControversy t))%Z).
  { rewrite totalPenalty_totalOf.
    apply warnings_In in Hin.
    pose proof (@totalOf_In _ _ (penalty_positive t) Hin) as Hp.
    exact Hp. }
  assert (Hrs : riskScore (scanForControversy t)
                = riskScoreOf (totalPenalty (scanForControversy t)))
    by reflexivity.
  assert (H50 : 50 <= riskScore (scanForControversy t)).
  { rewrite Hrs. unfold riskScoreOf. apply Q.min_glb; [discriminate|].
    apply Qle_trans with (inject_Z 20 * (5 # 2)); [discriminate|].
    apply Qmult_le_compat_r; [|discriminate].
    rewrite <- Zle_Qle. exact H20. }
  assert (Hlvl : riskLevel (scanForControversy t)
                 = riskLevelOf (riskScore (scanForControversy t)))
    by reflexivity.
  destruct (riskLevelOf_bands (riskScore (scanForControversy t)))
    as (Hd & Hr & _ & _).
  split; [eexists; split; [exact Hin | repeat split]|].
  split; [exact H20|]. split; [exact H50|].
  destruct (Qlt_le_dec (riskScore (scanForControversy t)) 60) as [Hlt|Hge].
  - assert (Hrisky : riskLevel (scanForControversy t) = risky).
    { rewrite Hlvl. apply Hr. split; [|exact Hlt].
      apply Qle_trans with 50; [discriminate | exact H50]. }
    split; [left; exact Hrisky|]. split.
    + rewrite Hrisky. split; [discriminate | intros; exfalso; lra].
    + split; [intros; exfalso; lra|]. intros H24. exfalso.
      revert Hlt. rewrite Hrs. unfold riskScoreOf. apply Qle_not_lt.
      apply Q.min_glb; [discriminate|].
      apply Qle_trans with (inject_Z 24 * (5 # 2)); [discriminate|].
      apply Qmult_le_compat_r; [|discriminate].
      rewrite <- Zle_Qle. exact H24.
  - assert (Hdang : riskLevel (scanForControversy t) = dangerous)
      by (rewrite Hlvl; apply Hd; exact Hge).
    split; [right; exact Hdang|]. split.
    + split; [intros _; exact Hge | intros _; exact Hdang].
    + split; [|intros _; exact Hge]. intros _.
      destruct (Z_lt_le_dec (totalPenalty (scanForControversy t)) 24)
        as [Hlt|]; [|assumption].
      exfalso. revert Hge. rewrite Hrs. unfold riskScoreOf.
      apply Qlt_not_le.
      apply Qle_lt_trans with (inject_Z (totalPenalty (scanForControversy t))
                               * (5 # 2)); [apply Q.le_min_r|].
      apply Qle_lt_trans with (inject_Z 23 * (5 # 2)); [|reflexivity].
      apply Qmult_le_compat_r; [|discriminate].
      rewrite <- Zle_Qle. lia.
Qed.

Lemma death_threat_witness :
  ruleTest VIOLENT_RULE deathThreatAndMore = true
  /\ (exists w, In w (warnings (scanForControversy deathThreatAndMore))
                /\ category w = offensive_language
                /\ severity w = critical /\ penalty w = 20%Z)
  /\ riskLevel (scanForControversy deathThreatAndMore) = dangerous.
Proof.
  assert (H : ruleTest VIOLENT_RULE deathThreatAndMore = true)
    by (vm_compute; reflexivity).
  pose proof (death_threat_critical_at_least_risky deathThreatAndMore H)
    as (Hw & _ & _ & _ & Hd & _).
  split; [exact H|]. split; [exact Hw|].
  apply Hd. vm_compute; discriminate.
Defined.

(** C10.  There is an input without a single letter or word character,
    thirty consecutive spaces, for which the scanner returns a warning; and
    every text that contains thirty or more consecutive characters, each an
    uppercase letter A-Z or whitespace, triggers the excessive-caps rule and
    so gets an inflammatory_tone warning of severity low and penalty 2. *)
Theorem caps_rule_fires_on_blank_runs :
  (List.length thirtySpaces = 30%nat
   /\ forallb (fun c => (c =? 32)%N && negb (isWordChar c)) thirtySpaces = true
   /\ warnings (scanForControversy thirtySpaces)
      = [warningOf inflammatory_tone "Inflammatory tone detected" CAPS_RULE])
  /\ forall pre mid post : jsString,
       (30 <= List.length mid)%nat ->
       Forall (fun c => isUpper c = true \/ isSpace c = true) mid ->
       exists w, In w (warnings (scanForControversy (pre ++ mid ++ post)))
                 /\ category w = inflammatory_tone
                 /\ severity w = low /\ penalty w = 2%Z.
Proof.
  split.
  - repeat split; vm_compute; reflexivity.
  - intros pre mid post Hlen Hmid.
    exists (warningOf inflammatory_tone "Inflammatory tone detected" CAPS_RULE).
    split; [|repeat split].
    apply rule_warning_emitted with (rules := INFLAMMATORY_PATTERNS);
      [simpl; auto 10 | simpl; auto 10 | now apply caps_rule_matches].
Qed.

Lemma caps_rule_witness :
  exists w, In w (warnings (scanForControversy
                              (shoutPre ++ shoutMid ++ shoutPost)))
            /\ category w = inflammatory_tone
            /\ severity w = low /\ penalty w = 2%Z.
Proof.
  apply (proj2 caps_rule_fires_on_blank_runs shoutPre shoutMid shoutPost).
  - vm_compute. lia.
  - assert (H : forallb (fun c => isUpper c || isSpace c) shoutMid = true)
      by (vm_compute; reflexivity).
    apply Forall_forall. intros c Hc.
    apply orb_true_iff. exact (proj1 (forallb_forall _ _) H c Hc).
Defined.

(* ================================================================== *)
(** * The scoring engine *)
(* ================================================================== *)

Module EngineFacts.

Import Engine.
Local Open Scope Q_scope.

Lemma gradeOf_bands o :
  (0 <= o <= 100)%Z ->
  (gradeOf o = S_ <-> 90 <= o <= 100)%Z
  /\ (gradeOf o = A_ <-> 80 <= o < 90)%Z
  /\ (gradeOf o = B_ <-> 65 <= o < 80)%Z
  /\ (gradeOf o = C_ <-> 50 <= o < 65)%Z
  /\ (gradeOf o = D_ <-> 35 <= o < 50)%Z
  /\ (gradeOf o = F_ <-> 0 <= o < 35)%Z.
Proof.
  intros Ho. unfold gradeOf.
  destruct (Z.leb_spec 90 o);
    [|destruct (Z.leb_spec 80 o);
      [|destruct (Z.leb_spec 65 o);
        [|destruct (Z.leb_spec 50 o);
          [|destruct (Z.leb_spec 35 o)]]]];
    repeat split; intros; try lia; try discriminate.
Qed.

Lemma overallOf_range b : (0 <= overallOf b <= 100)%Z.
Proof. unfold overallOf, clampZ. lia. Qed.

End EngineFacts.

Module EngineClaims.

Import Engine EngineFacts.
Local Open Scope Q_scope.

(** C1.  For every tweet and every context, the defaulted one included,
    [scoreTweet] returns an integer [overall] in [0, 100], and the grade is
    the step function of [overall]: S on [90,100], A on [80,90), B on
    [65,80), C on [50,65), D on [35,50), F on [0,35). *)
Theorem overall_in_range_grade_bands
    (W : Weights) (now : Clock) (t : DraftTweet)
    (context : option UserContext) :
  (0 <= overall (scoreTweet W now t context) <= 100)%Z
  /\ (grade (scoreTweet W now t context) = S_
      <-> 90 <= overall (scoreTweet W now t context) <= 100)%Z
  /\ (grade (scoreTweet W now t context) = A_
      <-> 80 <= overall (scoreTweet W now t context) < 90)%Z
  /\ (grade (scoreTweet W now t context) = B_
      <-> 65 <= overall (scoreTweet W now t context) < 80)%Z
  /\ (grade (scoreTweet W now t context) = C_
      <-> 50 <= overall (scoreTweet W now t context) < 65)%Z
  /\ (grade (scoreTweet W now t context) = D_
      <-> 35 <= overall (scoreTweet W now t context) < 50)%Z
  /\ (grade (scoreTweet W now t context) = F_
      <-> 0 <= overall (scoreTweet W now t context) < 35)%Z.
Proof.
  unfold scoreTweet; cbn [overall grade].
  split; [apply overallOf_range|].
  apply gradeOf_bands, overallOf_range.
Qed.

End EngineClaims.

(* ================================================================== *)
(** * The scanner: thresholds, bounds and the shape of the rules *)
(* ================================================================== *)

Module ScannerMore.

Lemma scaled_le (k p : Z) :
  inject_Z k * (5 # 2) <= inject_Z p * (5 # 2) <-> (k <= p)%Z.
Proof.
  unfold Qle, Qmult, inject_Z; simpl. lia.
Qed.

Lemma riskScoreOf_ge (k p : Z) :
  (k <= 40)%Z ->
  (inject_Z k * (5 # 2) <= riskScoreOf p <-> (k <= p)%Z).
Proof.
  intros Hk. unfold riskScoreOf.
  assert (Hcap : inject_Z k * (5 # 2) <= 100)
    by (unfold Qle, Qmult, inject_Z; simpl; lia).
  split.
  - intros H. apply scaled_le.
    eapply Qle_trans; [exact H | apply Q.le_min_r].
  - intros H. apply Q.min_glb; [exact Hcap | now apply scaled_le].
Qed.

Lemma riskLevel_of_total (p : Z) :
  (riskLevelOf (riskScoreOf p) = dangerous <-> (24 <= p)%Z)
  /\ (riskLevelOf (riskScoreOf p) = risky <-> (12 <= p < 24)%Z)
  /\ (riskLevelOf (riskScoreOf p) = caution <-> (4 <= p < 12)%Z)
  /\ (riskLevelOf (riskScoreOf p) = safe <-> (p < 4)%Z).
Proof.
  pose proof (@riskScoreOf_ge 24 p ltac:(lia)) as H60.
  pose proof (@riskScoreOf_ge 12 p ltac:(lia)) as H30.
  pose proof (@riskScoreOf_ge 4 p ltac:(lia)) as H10.
  change (inject_Z 24 * (5 # 2)) with (120 # 2) in H60.
  change (inject_Z 12 * (5 # 2)) with (60 # 2) in H30.
  change (inject_Z 4 * (5 # 2)) with (20 # 2) in H10.
  assert (E60 : (120 # 2) == 60) by reflexivity.
  assert (E30 : (60 # 2) == 30) by reflexivity.
  assert (E10 : (20 # 2) == 10) by reflexivity.
  rewrite E60 in H60. rewrite E30 in H30. rewrite E10 in H10.
  unfold riskLevelOf.
  destruct (Qle_bool 60 (riskScoreOf p)) eqn:A;
    [apply Qle_bool_iff in A; apply H60 in A
    | assert (~ (24 <= p)%Z)
        by (intros B; apply H60, Qle_bool_iff in B; congruence)];
    (destruct (Qle_bool 30 (riskScoreOf p)) eqn:B;
     [apply Qle_bool_iff in B; apply H30 in B
     | assert (~ (12 <= p)%Z)
         by (intros C; apply H30, Qle_bool_iff in C; congruence)]);
    (destruct (Qle_bool 10 (riskScoreOf p)) eqn:C;
     [apply Qle_bool_iff in C; apply H10 in C
     | assert (~ (4 <= p)%Z)
         by (intros D; apply H10, Qle_bool_iff in D; congruence)]);
    repeat split; intros; try lia; try discriminate; try reflexivity.
Qed.

End ScannerMore.

Import ScannerMore.

(* ================================================================== *)
(** * More about the scanner *)
(* ================================================================== *)

Lemma safe_total (t : jsString) :
  riskLevel (scanForControversy t) = safe
  <-> (totalPenalty (scanForControversy t) < 4)%Z.
Proof.
  exact (proj2 (proj2 (proj2
           (riskLevel_of_total (totalPenalty (scanForControversy t)))))).
Qed.

(** X1. The risk level of a scan is decided by the total penalty alone:
    dangerous from 24 points, risky from 12 to 23, caution from 4 to 11,
    safe below 4. *)
Theorem riskLevel_by_total_penalty (t : jsString) :
  (riskLevel (scanForControversy t) = dangerous
   <-> (24 <= totalPenalty (scanForControversy t))%Z)
  /\ (riskLevel (scanForControversy t) = risky
      <-> (12 <= totalPenalty (scanForControversy t) < 24)%Z)
  /\ (riskLevel (scanForControversy t) = caution
      <-> (4 <= totalPenalty (scanForControversy t) < 12)%Z)
  /\ (riskLevel (scanForControversy t) = safe
      <-> (totalPenalty (scanForControversy t) < 4)%Z).
Proof.
  exact (riskLevel_of_total (totalPenalty (scanForControversy t))).
Qed.

Lemma small_total_shape (l : list ControversyWarning) :
  Forall (fun w => (2 <= penalty w)%Z) l ->
  ((totalOf l < 4)%Z <-> l = [] \/ exists w, l = [w] /\ (penalty w < 4)%Z).
Proof.
  intros H. split.
  - destruct H as [|w l Hw Hl]; [auto|].
    destruct Hl as [|w' l Hw' Hl].
    + unfold totalOf; simpl. intros. right. exists w. split; [reflexivity|lia].
    + pose proof (totalOf_nonneg Hl) as Hn. unfold totalOf in *; simpl. lia.
  - intros [->|[w [-> Hw]]]; unfold totalOf; simpl; lia.
Qed.

Lemma inTableOrder_penalty t w :
  In w (inTableOrder t) -> penalty w = SEVERITY_PENALTY (severity w).
Proof.
  intros Hw. apply inTableOrder_In in Hw.
  destruct Hw as (cat & msg & rules & r & _ & _ & _ & ->). reflexivity.
Qed.

Lemma sortBy_nil_iff (l : list ControversyWarning) :
  sortBy compareWarnings l = [] <-> l = [].
Proof.
  split; [|intros ->; reflexivity].
  intros H. pose proof (sortBy_perm l) as P. rewrite H in P.
  now apply Permutation_nil.
Qed.

Lemma sortBy_single_iff (l : list ControversyWarning) w :
  sortBy compareWarnings l = [w] <-> l = [w].
Proof.
  split; [|intros ->; reflexivity].
  intros H. pose proof (sortBy_perm l) as P. rewrite H in P.
  now apply Permutation_length_1_inv.
Qed.

(** X2. A scan is safe exactly when it reports no warning, or a single
    warning of low severity. *)
Theorem safe_iff_at_most_one_low_warning (t : jsString) :
  riskLevel (scanForControversy t) = safe
  <-> warnings (scanForControversy t) = []
      \/ exists w, warnings (scanForControversy t) = [w] /\ severity w = low.
Proof.
  rewrite safe_total.
  rewrite totalPenalty_totalOf.
  rewrite (small_total_shape (penalty_positive t)).
  unfold scanForControversy; simpl. rewrite collectWarnings_inTableOrder.
  rewrite sortBy_nil_iff.
  split.
  - intros [H|[w [H Hp]]]; [left; exact H|right].
    exists w. rewrite sortBy_single_iff. split; [exact H|].
    assert (Hin : In w (inTableOrder t)) by (rewrite H; simpl; auto).
    apply inTableOrder_penalty in Hin. rewrite Hin in Hp.
    destruct (severity w); simpl in Hp; try lia. reflexivity.
  - intros [H|[w [H Hs]]]; [left; exact H|right].
    apply (proj1 (sortBy_single_iff _ _)) in H. exists w. split; [exact H|].
    assert (Hin : In w (inTableOrder t)) by (rewrite H; simpl; auto).
    apply inTableOrder_penalty in Hin. rewrite Hin, Hs. reflexivity.
Qed.

Lemma matchingRules_le t : (matchingRules t <= 20)%nat.
Proof.
  unfold matchingRules, TABLES. cbn [map list_sum snd].
  repeat match goal with
         | |- context [List.length (filter ?f ?l)] =>
             let H := fresh "H" in
             pose proof (filter_length_le f l) as H;
             let n := eval vm_compute in (List.length l) in
             change (List.length l) with n in H;
             generalize dependent (List.length (filter f l))
         end.
  intros. unfold list_sum; simpl. lia.
Qed.

(** X6. A scan never reports more than 20 warnings, its total penalty
    lies between 0 and 148, and the risk score reaches its cap of 100
    exactly when the total penalty is 40 or more. *)
Theorem scan_bounds (t : jsString) :
  (List.length (warnings (scanForControversy t)) <= 20)%nat
  /\ (0 <= totalPenalty (scanForControversy t) <= 148)%Z
  /\ (riskScore (scanForControversy t) == 100
      <-> (40 <= totalPenalty (scanForControversy t))%Z).
Proof.
  split; [|split].
  - rewrite (Permutation_length (warnings_perm t)).
    replace (List.length (inTableOrder t)) with (matchingRules t).
    + apply matchingRules_le.
    + unfold inTableOrder, matchingRules, TABLES, matched.
      cbn [flat_map map list_sum snd].
      rewrite !length_app, !length_map. simpl. lia.
  - apply totalPenalty_bounded.
  - change (riskScore (scanForControversy t))
      with (riskScoreOf (totalPenalty (scanForControversy t))).
    pose proof (@riskScoreOf_ge 40 (totalPenalty (scanForControversy t))
                  ltac:(lia)) as H.
    assert (E : inject_Z 40 * (5 # 2) == 100) by reflexivity.
    rewrite E in H. rewrite <- H. split.
    + intros ->. apply Qle_refl.
    + intros Hle. apply Qle_antisym; [apply Q.le_min_l | exact Hle].
Qed.

(** ** Texts without a word character *)

Lemma headWordB_no_match (r : regex) (x : pos) :
  headWordB r = true ->
  isWordBefore x = false -> isWordAfter x = false -> ends r x = [].
Proof.
  intros Hr Hb Ha. induction r; simpl in *; try discriminate.
  - rewrite Hb, Ha. reflexivity.
  - rewrite (IHr1 Hr). reflexivity.
  - apply andb_true_iff in Hr. destruct Hr as [H1 H2].
    rewrite (IHr1 H1), (IHr2 H2). reflexivity.
Qed.

(** Every position of a wordless text has no word character on either side
    and a wordless rest. *)
Lemma starts_wordless (t : jsString) (prev : option N) (x : pos) :
  wordless t ->
  match prev with Some c => isWordChar c = false | None => True end ->
  In x (starts prev t) ->
  isWordBefore x = false /\ isWordAfter x = false /\ wordless (snd x).
Proof.
  intros Ht. revert prev.
  induction Ht as [|c t Hc Ht IH]; intros prev Hp [<-|Hin];
    try contradiction.
  - unfold isWordBefore, isWordAfter; simpl.
    destruct prev; repeat split; auto; constructor.
  - unfold isWordBefore, isWordAfter; simpl.
    destruct prev; repeat split; auto; constructor; assumption.
  - apply (IH (Some c)); assumption.
Qed.

Lemma test_false_intro (r : regex) (t : jsString) :
  (forall x, In x (starts None t) -> ends r x = []) -> test r t = false.
Proof.
  intros H. unfold test. apply not_true_iff_false. intros E.
  apply existsb_exists in E. destruct E as [x [Hin Hm]].
  unfold matchesAt in Hm. rewrite (H x Hin) in Hm. discriminate.
Qed.

Lemma headWordB_wordless (r : Rule) (t : jsString) :
  ruleHeadWordB r = true -> wordless t -> ruleTest r t = false.
Proof.
  unfold ruleHeadWordB, ruleTest. intros Hr Ht.
  destruct (parse (ignoreCase r) (source r)) as [re|]; [|reflexivity].
  apply test_false_intro. intros x Hin.
  destruct (@starts_wordless t None x Ht I Hin) as (Hb & Ha & _).
  now apply headWordB_no_match.
Qed.

Lemma named_attack_shape :
  exists rest,
    parse (ignoreCase NAMED_ATTACK_RULE) (source NAMED_ATTACK_RULE)
    = Some (Seq (Cls (litChar true "@"%char))
              (Seq (Rep 1 isWordChar) rest)).
Proof. eexists. reflexivity. Qed.

Lemma named_attack_wordless (t : jsString) :
  wordless t -> ruleTest NAMED_ATTACK_RULE t = false.
Proof.
  intros Ht. unfold ruleTest.
  destruct named_attack_shape as [rest ->].
  apply test_false_intro. intros x Hin.
  destruct (@starts_wordless t None x Ht I Hin) as (_ & _ & Hs).
  cbn [ends]. unfold stepCls.
  destruct (snd x) as [|c s]; [reflexivity|].
  destruct (litChar true "@" c); [|reflexivity].
  cbn [flat_map fst snd atLeast]. inversion Hs as [|c' s' Hc Hs']; subst.
  destruct s as [|d s]; [reflexivity|].
  inversion Hs' as [|d' s'' Hd _]; subst. rewrite Hd. reflexivity.
Qed.

Lemma wordless_rules (t : jsString) (r : Rule) :
  wordless t -> In r ALL_RULES -> ignoreCase r = true -> ruleTest r t = false.
Proof.
  intros Ht Hin Hne.
  unfold ALL_RULES, TABLES in Hin. cbn [flat_map snd app] in Hin.
  unfold OFFENSIVE_PATTERNS, HOT_BUTTON_PATTERNS, INFLAMMATORY_PATTERNS,
    RAGE_BAIT_PATTERNS, TARGETED_ATTACK_PATTERNS, MISINFO_PATTERNS in Hin.
  cbn [app] in Hin.
  repeat (destruct Hin as [<-|Hin];
          [first [ apply headWordB_wordless;
                   [vm_compute; reflexivity | exact Ht]
                 | exact (named_attack_wordless Ht)
                 | discriminate Hne ]|]).
  contradiction.
Qed.

Lemma filter_wordless (t : jsString) (rules : list Rule) :
  wordless t -> incl rules ALL_RULES ->
  filter (fun r => ruleTest r t) rules
  = filter (fun r => negb (ignoreCase r) && ruleTest r t) rules.
Proof.
  intros Ht Hincl. apply filter_ext_in. intros r Hr.
  destruct (ignoreCase r) eqn:E; [|reflexivity].
  simpl. apply wordless_rules; auto.
Qed.

Lemma table_incl e : In e TABLES -> incl (snd e) ALL_RULES.
Proof.
  intros He r Hr. unfold ALL_RULES. apply in_flat_map. exists e. auto.
Qed.

(** X3. A text without a letter, digit or underscore can only set off
    the caps/punctuation rule: the scan reports that one low warning or
    nothing, and is safe. *)
Theorem wordless_text_only_caps_rule (t : jsString) :
  wordless t ->
  warnings (scanForControversy t)
  = (if ruleTest CAPS_RULE t then [capsWarning] else [])
  /\ riskLevel (scanForControversy t) = safe.
Proof.
  intros Ht.
  assert (E : warnings (scanForControversy t)
              = if ruleTest CAPS_RULE t then [capsWarning] else []).
  { unfold scanForControversy; cbn [warnings].
    rewrite collectWarnings_inTableOrder.
    unfold inTableOrder, TABLES. cbn [flat_map matched].
    rewrite (filter_wordless Ht (rules := OFFENSIVE_PATTERNS)),
      (filter_wordless Ht (rules := HOT_BUTTON_PATTERNS)),
      (filter_wordless Ht (rules := INFLAMMATORY_PATTERNS)),
      (filter_wordless Ht (rules := RAGE_BAIT_PATTERNS)),
      (filter_wordless Ht (rules := TARGETED_ATTACK_PATTERNS)),
      (filter_wordless Ht (rules := MISINFO_PATTERNS));
      try (intros r Hr; unfold ALL_RULES, TABLES; cbn [flat_map snd];
           rewrite !in_app_iff; tauto).
    unfold OFFENSIVE_PATTERNS, HOT_BUTTON_PATTERNS, INFLAMMATORY_PATTERNS,
      RAGE_BAIT_PATTERNS, TARGETED_ATTACK_PATTERNS, MISINFO_PATTERNS.
    cbn [filter negb andb ignoreCase map app].
    change (mkRule "(!{3,}|\?{3,}|[A-Z\s]{30,})" false low
              "Excessive caps/punctuation reads as shouting — reduces perceived quality")
      with CAPS_RULE.
    destruct (ruleTest CAPS_RULE t); reflexivity. }
  split; [exact E|].
  apply safe_total.
  rewrite totalPenalty_totalOf, <- (totalOf_perm (warnings_perm t)), E.
  destruct (ruleTest CAPS_RULE t); reflexivity.
Qed.

Local Open Scope N_scope.

Lemma isLower_range c : isLower c = true <-> 97 <= c <= 122.
Proof.
  unfold isLower, inRange. rewrite andb_true_iff, !N.leb_le. tauto.
Qed.

Lemma isUpper_range c : isUpper c = true <-> 65 <= c <= 90.
Proof.
  unfold isUpper, inRange. rewrite andb_true_iff, !N.leb_le. tauto.
Qed.

Lemma inRange_false lo hi c : c < lo \/ hi < c -> inRange lo hi c = false.
Proof.
  unfold inRange. intros [H|H]; apply andb_false_iff;
    [left | right]; apply N.leb_gt; exact H.
Qed.

Lemma toUpperAscii_lower c :
  isLower c = true -> toUpperAscii c = c - 32 /\ 65 <= c - 32 <= 90.
Proof.
  intros H. unfold toUpperAscii. rewrite H.
  apply isLower_range in H. split; [reflexivity | lia].
Qed.

Lemma toUpperAscii_other c : isLower c = false -> toUpperAscii c = c.
Proof. intros H. unfold toUpperAscii. now rewrite H. Qed.

Lemma toUpperAscii_idem c : toUpperAscii (toUpperAscii c) = toUpperAscii c.
Proof.
  destruct (isLower c) eqn:E.
  - destruct (@toUpperAscii_lower c E) as [-> Hr].
    apply toUpperAscii_other. apply not_true_iff_false.
    rewrite isLower_range. lia.
  - rewrite (@toUpperAscii_other c E). now apply toUpperAscii_other.
Qed.

Lemma isWordChar_blind : blind isWordChar.
Proof.
  intros c. destruct (isLower c) eqn:E.
  - destruct (@toUpperAscii_lower c E) as [-> Hr].
    unfold isWordChar. rewrite E.
    rewrite (proj2 (isUpper_range (c - 32)) Hr).
    now rewrite orb_true_r.
  - now rewrite (@toUpperAscii_other c E).
Qed.

Lemma isSpace_blind : blind isSpace.
Proof.
  intros c. destruct (isLower c) eqn:E.
  - destruct (@toUpperAscii_lower c E) as [-> Hr].
    apply isLower_range in E.
    unfold isSpace.
    rewrite !inRange_false by lia.
    repeat match goal with
           | |- context [?a =? ?b] =>
               rewrite (proj2 (N.eqb_neq a b)) by lia
           end.
    reflexivity.
  - now rewrite (@toUpperAscii_other c E).
Qed.

Lemma eqIgnoreCase_blind p : blind (eqIgnoreCase p).
Proof.
  intros c. unfold eqIgnoreCase.
  destruct (isUpper p || isLower p) eqn:Ep.
  - now rewrite toUpperAscii_idem.
  - apply orb_false_iff in Ep. destruct Ep as [Hu Hl].
    destruct (isLower c) eqn:E.
    + destruct (@toUpperAscii_lower c E) as [-> Hr].
      assert (c - 32 <> p).
      { intros <-. apply isUpper_range in Hr. congruence. }
      assert (c <> p) by (intros <-; congruence).
      rewrite (proj2 (N.eqb_neq _ _)), (proj2 (N.eqb_neq _ _)); auto.
    + now rewrite (@toUpperAscii_other c E).
Qed.

Local Close Scope N_scope.

Lemma many_upper p (Hp : blind p) prev s :
  many p (option_map toUpperAscii prev) (upperAscii s)
  = map upperPos (many p prev s).
Proof.
  revert prev. induction s as [|c s IH]; intros prev; simpl.
  - reflexivity.
  - rewrite Hp. f_equal. destruct (p c); [|reflexivity].
    apply (IH (Some c)).
Qed.

Lemma atLeast_upper p (Hp : blind p) n prev s :
  atLeast n p (option_map toUpperAscii prev) (upperAscii s)
  = map upperPos (atLeast n p prev s).
Proof.
  revert prev s. induction n as [|n IH]; intros prev s.
  - apply many_upper, Hp.
  - destruct s as [|c s]; simpl; [reflexivity|].
    rewrite Hp. destruct (p c); [|reflexivity]. apply (IH (Some c)).
Qed.

Lemma flat_map_map_pos (f : pos -> list pos) g (l : list pos) :
  flat_map f (map g l) = flat_map (fun y => f (g y)) l.
Proof. induction l; simpl; congruence. Qed.

Lemma map_flat_map_pos (f : pos -> list pos) (g : pos -> pos) (l : list pos) :
  map g (flat_map f l) = flat_map (fun y => map g (f y)) l.
Proof.
  induction l; simpl; [reflexivity|]. rewrite map_app. congruence.
Qed.

(** Matching a case-blind pattern commutes with forgetting the case. *)
Lemma ends_upper (r : regex) :
  CaseBlind r -> forall x, ends r (upperPos x) = map upperPos (ends r x).
Proof.
  induction 1 as [|p Hp| |a b Ha IHa Hb IHb|a b Ha IHa Hb IHb|n p Hp|a Ha IHa];
    intros [prev s]; cbn [ends].
  - reflexivity.
  - unfold stepCls, upperPos; simpl. destruct s as [|c s]; [reflexivity|].
    simpl. rewrite Hp. destruct (p c); reflexivity.
  - unfold isWordBefore, isWordAfter, upperPos; simpl.
    assert (E1 : match option_map toUpperAscii prev with
                 | Some c => isWordChar c | None => false end
                 = match prev with Some c => isWordChar c | None => false end)
      by (destruct prev; simpl; [apply isWordChar_blind | reflexivity]).
    assert (E2 : match upperAscii s with
                 | c :: _ => isWordChar c | [] => false end
                 = match s with c :: _ => isWordChar c | [] => false end)
      by (destruct s; simpl; [reflexivity | apply isWordChar_blind]).
    rewrite E1, E2. destruct (xorb _ _); reflexivity.
  - rewrite IHa, flat_map_map_pos, map_flat_map_pos.
    apply flat_map_ext. intros y. apply IHb.
  - rewrite map_app, IHa, IHb. reflexivity.
  - unfold upperPos; simpl. apply atLeast_upper, Hp.
  - rewrite map_app, IHa. reflexivity.
Qed.

Lemma starts_upper prev t :
  starts (option_map toUpperAscii prev) (upperAscii t)
  = map upperPos (starts prev t).
Proof.
  revert prev. induction t as [|c t IH]; intros prev; simpl.
  - reflexivity.
  - f_equal. apply (IH (Some c)).
Qed.

Lemma test_upper (r : regex) (t : jsString) :
  CaseBlind r -> test r (upperAscii t) = test r t.
Proof.
  intros Hr. unfold test.
  change (starts None (upperAscii t))
    with (starts (option_map toUpperAscii None) (upperAscii t)).
  rewrite starts_upper.
  induction (starts None t) as [|x l IH]; simpl; [reflexivity|].
  rewrite IH. f_equal. unfold matchesAt. rewrite (@ends_upper r Hr).
  destruct (ends r x); reflexivity.
Qed.

Ltac case_blind :=
  repeat first
    [ apply CaseBlind_Seq | apply CaseBlind_Alt | apply CaseBlind_Opt
    | apply CaseBlind_WordB | apply CaseBlind_Eps
    | apply CaseBlind_Cls | apply CaseBlind_Rep
    | apply eqIgnoreCase_blind | apply isSpace_blind
    | apply isWordChar_blind ].

Lemma i_rules_case_blind (r : Rule) :
  In r ALL_RULES -> ignoreCase r = true ->
  exists re, parse (ignoreCase r) (source r) = Some re /\ CaseBlind re.
Proof.
  intros Hin Hi.
  unfold ALL_RULES, TABLES in Hin. cbn [flat_map snd app] in Hin.
  unfold OFFENSIVE_PATTERNS, HOT_BUTTON_PATTERNS, INFLAMMATORY_PATTERNS,
    RAGE_BAIT_PATTERNS, TARGETED_ATTACK_PATTERNS, MISINFO_PATTERNS in Hin.
  cbn [app] in Hin.
  repeat (destruct Hin as [<-|Hin];
          [first [ discriminate Hi
                 | eexists; split;
                   [ cbn [ignoreCase source];
                     lazy -[eqIgnoreCase isSpace isWordChar]; reflexivity
                   | case_blind ] ]|]).
  contradiction.
Qed.

Lemma matched_ext (t u : jsString) e :
  (forall r, In r (snd e) -> ruleTest r t = ruleTest r u) ->
  matched t e = matched u e.
Proof.
  destruct e as [[cat msg] rules]. simpl. intros H.
  f_equal. apply filter_ext_in. exact H.
Qed.

Lemma scan_ext (t u : jsString) :
  (forall r, In r ALL_RULES -> ruleTest r t = ruleTest r u) ->
  scanForControversy t = scanForControversy u.
Proof.
  intros H.
  assert (E : collectWarnings t = collectWarnings u).
  { rewrite !collectWarnings_inTableOrder. unfold inTableOrder.
    assert (G : forall l, incl l TABLES ->
                          flat_map (matched t) l = flat_map (matched u) l).
    { induction l as [|e l IH]; intros Hl; simpl; [reflexivity|].
      rewrite IH by (intros x Hx; apply Hl; right; exact Hx).
      f_equal. apply matched_ext. intros r Hr. apply H.
      unfold ALL_RULES. apply in_flat_map. exists e. split; [|exact Hr].
      apply Hl. left. reflexivity. }
    apply G. apply incl_refl. }
  unfold scanForControversy. rewrite E. reflexivity.
Qed.

(** X4. Two texts that differ only in the case of ASCII letters set off
    the same case-insensitive rules (all but the caps/punctuation rule);
    when the caps/punctuation rule agrees on them as well, their scans are
    the same result. *)
Theorem i_flag_rules_ignore_case (t u : jsString) :
  upperAscii t = upperAscii u ->
  (forall r, In r ALL_RULES -> ignoreCase r = true ->
             ruleTest r t = ruleTest r u)
  /\ (ruleTest CAPS_RULE t = ruleTest CAPS_RULE u ->
      scanForControversy t = scanForControversy u).
Proof.
  intros E.
  assert (H : forall r, In r ALL_RULES -> ignoreCase r = true ->
                        ruleTest r t = ruleTest r u).
  { intros r Hin Hi.
    destruct (@i_rules_case_blind r Hin Hi) as [re [Hp Hb]].
    unfold ruleTest. rewrite Hp.
    rewrite <- (@test_upper re t Hb), <- (@test_upper re u Hb), E.
    reflexivity. }
  split; [exact H|].
  intros Hc. apply scan_ext. intros r Hin.
  destruct (ignoreCase r) eqn:Hi; [now apply H|].
  assert (r = CAPS_RULE).
  { clear - Hin Hi.
    unfold ALL_RULES, TABLES in Hin. cbn [flat_map snd app] in Hin.
    unfold OFFENSIVE_PATTERNS, HOT_BUTTON_PATTERNS, INFLAMMATORY_PATTERNS,
      RAGE_BAIT_PATTERNS, TARGETED_ATTACK_PATTERNS, MISINFO_PATTERNS in Hin.
    cbn [app] in Hin.
    repeat (destruct Hin as [<-|Hin];
            [first [discriminate Hi | reflexivity]|]).
    contradiction. }
  subst r. exact Hc.
Qed.

Import ExtensionSamples.

Lemma ignore_case_witness :
  scanForControversy mixedCaseThreat = scanForControversy lowerCaseThreat.
Proof.
  apply (proj2 (@i_flag_rules_ignore_case mixedCaseThreat lowerCaseThreat
                  ltac:(vm_compute; reflexivity))).
  vm_compute. reflexivity.
Defined.

(** ** The excessive caps/punctuation rule, exactly *)

Lemma atLeast_inv p n prev s :
  atLeast n p prev s <> [] ->
  exists mid post,
    s = mid ++ post /\ List.length mid = n
    /\ Forall (fun c => p c = true) mid.
Proof.
  revert prev s. induction n as [|n IH]; intros prev s H.
  - exists [], s. repeat split. constructor.
  - destruct s as [|c s]; simpl in H; [contradiction|].
    destruct (p c) eqn:E; [|contradiction].
    destruct (IH _ _ H) as (mid & post & -> & Hl & Hf).
    exists (c :: mid), post. repeat split; simpl; auto.
Qed.

Lemma starts_inv prev t x :
  In x (starts prev t) -> exists pre, t = pre ++ snd x.
Proof.
  revert prev. induction t as [|c t IH]; intros prev [<-|Hin];
    try contradiction.
  - exists []. reflexivity.
  - exists []. reflexivity.
  - destruct (IH _ Hin) as [pre ->]. exists (c :: pre). reflexivity.
Qed.

Lemma run_of_three (k : N) (mid : jsString) :
  List.length mid = 3%nat -> Forall (fun c => N.eqb k c = true) mid ->
  mid = [k; k; k].
Proof.
  intros Hl Hf.
  destruct mid as [|a [|b [|c [|d mid]]]]; try discriminate.
  inversion Hf as [|? ? Ha Hf1]; subst.
  inversion Hf1 as [|? ? Hb Hf2]; subst.
  inversion Hf2 as [|? ? Hc _]; subst.
  apply N.eqb_eq in Ha, Hb, Hc. congruence.
Qed.

Lemma capsClass_iff c :
  capsClass c = true <-> isUpper c = true \/ isSpace c = true.
Proof.
  unfold capsClass, orP, isUpper.
  rewrite orb_false_r, orb_true_iff. tauto.
Qed.

Lemma run_matches (r : regex) (t pre mid post : jsString) n p :
  t = pre ++ mid ++ post -> (n <= List.length mid)%nat ->
  Forall (fun c => p c = true) mid ->
  (forall x, atLeast n p (fst x) (snd x) <> [] -> ends r x <> []) ->
  test r t = true.
Proof.
  intros -> Hl Hf Hr.
  destruct (starts_app pre (mid ++ post) None) as [before Hin].
  apply (@test_intro _ _ _ Hin). apply Hr. simpl.
  now apply atLeast_run.
Qed.

(** X5. The caps/punctuation rule fires exactly on the texts that
    contain three exclamation marks in a row, three question marks in a
    row, or thirty code units in a row each an upper-case ASCII letter or
    white space. *)
Theorem caps_rule_exactly (t : jsString) :
  ruleTest CAPS_RULE t = true
  <-> exists pre mid post,
        t = pre ++ mid ++ post
        /\ (mid = ofString "!!!" \/ mid = ofString "???"
            \/ (List.length mid = 30%nat
                /\ Forall (fun c => isUpper c = true \/ isSpace c = true)
                     mid)).
Proof.
  unfold ruleTest. rewrite caps_pattern_parsed. split.
  - intros H. unfold test in H. apply existsb_exists in H.
    destruct H as [x [Hin Hm]].
    destruct (starts_inv _ _ _ Hin) as [pre ->].
    unfold matchesAt in Hm. cbn [ends] in Hm.
    destruct (atLeast 3 (N.eqb 33) (fst x) (snd x)) eqn:E1.
    + destruct (atLeast 3 (N.eqb 63) (fst x) (snd x)) eqn:E2.
      * destruct (atLeast 30 capsClass (fst x) (snd x)) eqn:E3;
          [discriminate|].
        destruct (@atLeast_inv capsClass 30 (fst x) (snd x))
          as (mid & post & Hs & Hl & Hf); [rewrite E3; discriminate|].
        exists pre, mid, post. rewrite Hs. split; [reflexivity|].
        right; right. split; [exact Hl|].
        eapply Forall_impl; [|exact Hf]. intros c. apply capsClass_iff.
      * destruct (@atLeast_inv (N.eqb 63) 3 (fst x) (snd x))
          as (mid & post & Hs & Hl & Hf); [rewrite E2; discriminate|].
        exists pre, mid, post. rewrite Hs. split; [reflexivity|].
        right; left. now apply run_of_three.
    + destruct (@atLeast_inv (N.eqb 33) 3 (fst x) (snd x))
        as (mid & post & Hs & Hl & Hf); [rewrite E1; discriminate|].
      exists pre, mid, post. rewrite Hs. split; [reflexivity|].
      left. now apply run_of_three.
  - intros (pre & mid & post & Ht & [->|[->|[Hl Hf]]]).
    + apply (@run_matches _ t pre (ofString "!!!") post 3 (N.eqb 33) Ht);
        [simpl; lia | repeat constructor |].
      intros x Hx. cbn [ends]. intros Hn.
      apply app_eq_nil in Hn. tauto.
    + apply (@run_matches _ t pre (ofString "???") post 3 (N.eqb 63) Ht);
        [simpl; lia | repeat constructor |].
      intros x Hx. cbn [ends]. intros Hn.
      apply app_eq_nil in Hn. destruct Hn as [_ Hn].
      apply app_eq_nil in Hn. tauto.
    + apply (@run_matches _ t pre mid post 30 capsClass Ht);
        [lia | eapply Forall_impl; [|exact Hf]; intros c; apply capsClass_iff |].
      intros x Hx. cbn [ends]. intros Hn.
      apply app_eq_nil in Hn. destruct Hn as [_ Hn].
      apply app_eq_nil in Hn. tauto.
Qed.

(* ================================================================== *)
(** * Objects and the storage area *)
(* ================================================================== *)

Module JSFacts.

Lemma getProp_setProp_same k v o : getProp k (setProp k v o) = v.
Proof.
  induction o as [|[k' v'] o IH]; simpl.
  - now rewrite String.eqb_refl.
  - destruct (String.eqb k k') eqn:E; simpl.
    + now rewrite String.eqb_refl.
    + now rewrite E.
Qed.

Lemma getProp_setProp_other k k' v o :
  k <> k' -> getProp k' (setProp k v o) = getProp k' o.
Proof.
  intros Hne. induction o as [|[k0 v0] o IH]; simpl.
  - destruct (String.eqb k' k) eqn:E; [|reflexivity].
    apply String.eqb_eq in E. congruence.
  - destruct (String.eqb k k0) eqn:E; simpl.
    + apply String.eqb_eq in E. subst k0.
      destruct (String.eqb k' k) eqn:E'; [|reflexivity].
      apply String.eqb_eq in E'. congruence.
    + destruct (String.eqb k' k0); [reflexivity | exact IH].
Qed.

Lemma getProp_absent k o : ~ In k (keys o) -> getProp k o = VUndefined.
Proof.
  induction o as [|[k' v'] o IH]; simpl; intros H; [reflexivity|].
  destruct (String.eqb k k') eqn:E.
  - apply String.eqb_eq in E. subst. tauto.
  - apply IH. tauto.
Qed.

Lemma keys_setProp k v o k' :
  In k' (keys (setProp k v o)) <-> k' = k \/ In k' (keys o).
Proof.
  induction o as [|[k0 v0] o IH]; simpl.
  - intuition.
  - destruct (String.eqb k k0) eqn:E; simpl.
    + apply String.eqb_eq in E. subst. intuition.
    + rewrite IH. intuition.
Qed.

(** Defining properties one after the other: the last definition of a key
    wins, and a key that is not defined keeps its value. *)
Lemma getProp_fold k (l : JSObject) (target : JSObject) :
  NoDup (keys l) ->
  getProp k (fold_left (fun o kv => setProp (fst kv) (snd kv) o) l target)
  = if in_dec string_dec k (keys l) then getProp k l else getProp k target.
Proof.
  revert target. induction l as [|[k0 v0] l IH]; intros target Hnd.
  - reflexivity.
  - inversion Hnd as [|? ? Hnotin Hnd']; subst.
    cbn [fold_left fst snd]. rewrite (IH _ Hnd').
    destruct (in_dec string_dec k (keys l)) as [H1|H1];
      destruct (in_dec string_dec k (keys ((k0, v0) :: l))) as [H2|H2];
      cbn [getProp]; simpl in H2.
    + destruct (String.eqb k k0) eqn:E; [|reflexivity].
      apply String.eqb_eq in E. subst. contradiction.
    + tauto.
    + destruct H2 as [->|H2]; [|contradiction].
      rewrite String.eqb_refl. apply getProp_setProp_same.
    + apply getProp_setProp_other. tauto.
Qed.

Lemma keys_fold k (l target : JSObject) :
  In k (keys (fold_left (fun o kv => setProp (fst kv) (snd kv) o) l target))
  <-> In k (keys l) \/ In k (keys target).
Proof.
  revert target. induction l as [|[k0 v0] l IH]; intros target; simpl.
  - tauto.
  - rewrite IH, keys_setProp. simpl. intuition.
Qed.

Lemma getProp_spread k target o :
  NoDup (keys o) ->
  getProp k (spread target (VObj o))
  = if in_dec string_dec k (keys o) then getProp k o else getProp k target.
Proof. intros H. unfold spread. simpl. now apply getProp_fold. Qed.

Lemma NoDup_setProp k v o : NoDup (keys o) -> NoDup (keys (setProp k v o)).
Proof.
  induction o as [|[k0 v0] o IH]; simpl; intros H.
  - repeat constructor. simpl. tauto.
  - inversion H as [|? ? Hn Hd]; subst.
    destruct (String.eqb k k0) eqn:E; simpl.
    + apply String.eqb_eq in E. subst. constructor; assumption.
    + constructor; [|now apply IH].
      rewrite keys_setProp. intros [Heq|Hin]; [|contradiction].
      rewrite Heq, String.eqb_refl in E. discriminate.
Qed.

Lemma NoDup_spread target v : NoDup (keys target) -> NoDup (keys (spread target v)).
Proof.
  unfold spread. generalize (ownProps v). intros l. revert target.
  induction l as [|[k0 v0] l IH]; intros target H; simpl; [exact H|].
  apply IH. now apply NoDup_setProp.
Qed.

(** ** The last [n] elements *)

Lemma sliceLast_length n l :
  List.length (sliceLast n l) = Nat.min n (List.length l).
Proof. unfold sliceLast. rewrite length_skipn. lia. Qed.

Lemma sliceLast_suffix n l : exists pre, l = pre ++ sliceLast n l.
Proof.
  exists (firstn (List.length l - n) l). unfold sliceLast.
  symmetry. apply firstn_skipn.
Qed.

Lemma sliceLast_all n l : (List.length l <= n)%nat -> sliceLast n l = l.
Proof.
  intros H. unfold sliceLast.
  replace (List.length l - n)%nat with 0%nat by lia. reflexivity.
Qed.

Lemma sliceLast_app_drop n pre x :
  (n <= List.length x)%nat -> sliceLast n (pre ++ x) = sliceLast n x.
Proof.
  intros H. unfold sliceLast. rewrite length_app, skipn_app.
  rewrite skipn_all2 by lia. simpl. f_equal. lia.
Qed.

Lemma sliceLast_again n l es :
  sliceLast n (sliceLast n l ++ es) = sliceLast n (l ++ es).
Proof.
  destruct (Nat.le_gt_cases (List.length l) n) as [H|H].
  - now rewrite (sliceLast_all l H).
  - destruct (sliceLast_suffix n l) as [pre E].
    rewrite E at 2. rewrite <- app_assoc.
    symmetry. apply sliceLast_app_drop.
    rewrite length_app, sliceLast_length. lia.
Qed.

Lemma sliceLast_last n l e :
  (1 <= n)%nat -> exists front, sliceLast n (l ++ [e]) = front ++ [e].
Proof.
  intros Hn. unfold sliceLast. rewrite length_app, skipn_app. simpl.
  exists (skipn (List.length l + 1 - n) l). f_equal.
  replace (List.length l + 1 - n - List.length l)%nat with 0%nat by lia.
  reflexivity.
Qed.

Lemma getProp_removeProp_same k o : getProp k (removeProp k o) = VUndefined.
Proof.
  induction o as [|[k' v'] o IH]; [reflexivity|]. simpl.
  destruct (String.eqb k k') eqn:E; [exact IH|].
  simpl. rewrite E. exact IH.
Qed.

Lemma getProp_removeProp_other k k' o :
  k <> k' -> getProp k (removeProp k' o) = getProp k o.
Proof.
  intros Hk. induction o as [|[k0 v0] o IH]; [reflexivity|]. simpl.
  destruct (String.eqb k' k0) eqn:E.
  - apply String.eqb_eq in E. subst k0.
    destruct (String.eqb k k') eqn:E'; [|exact IH].
    apply String.eqb_eq in E'. contradiction.
  - simpl. destruct (String.eqb k k0); [reflexivity|exact IH].
Qed.

End JSFacts.

(* ================================================================== *)
(** * The background worker: history, settings, migration *)
(* ================================================================== *)

Module BackgroundFacts.

Import JSFacts Background.
Local Open Scope string_scope.
Local Open Scope list_scope.

Section WithDefaults.
Variable D : JSObject.

Lemma logScoreHistory_array (e : JSVal) (st : Store) (h : list JSVal) :
  getProp "scoreHistory" st = VArr h
  \/ (getProp "scoreHistory" st = VUndefined /\ h = []) ->
  logScoreHistory e st
  = setProp "scoreHistory" (VArr (sliceLast 100 (h ++ [e]))) st.
Proof.
  unfold logScoreHistory. intros [->|[-> ->]]; reflexivity.
Qed.

Lemma handle_log (e : JSVal) (st : Store) (h : list JSVal) :
  truthy e = true ->
  getProp "scoreHistory" st = VArr h
  \/ (getProp "scoreHistory" st = VUndefined /\ h = []) ->
  fst (onMessage D (mkMessage "LOG_SCORE" e) st)
  = setProp "scoreHistory" (VArr (sliceLast 100 (h ++ [e]))) st.
Proof.
  intros He Hh. unfold onMessage. cbn [type payload String.eqb Ascii.eqb Bool.eqb fst].
  rewrite He. now apply logScoreHistory_array.
Qed.

Lemma handle_log_settings (e : JSVal) (st : Store) :
  getProp "settings" (fst (onMessage D (mkMessage "LOG_SCORE" e) st))
  = getProp "settings" st.
Proof.
  unfold onMessage. cbn [type payload String.eqb Ascii.eqb Bool.eqb fst].
  destruct (truthy e); [|reflexivity].
  unfold logScoreHistory.
  destruct (iterate _); [|reflexivity].
  apply getProp_setProp_other. discriminate.
Qed.

Lemma run_app (evs1 evs2 : list Event) (w : Worker) :
  run D (evs1 ++ evs2) w = run D evs2 (run D evs1 w).
Proof. apply fold_left_app. Qed.

(** One message in turn is the listener with its work run to the end. *)
Lemma inTurn_one (m : RuntimeMessage) (st : Store) :
  run D (inTurn [m]) (idle st) = idle (fst (onMessage D m st)).
Proof.
  unfold inTurn, run, idle. cbn [flat_map app fold_left step].
  unfold receive, onMessage. cbn [storage inFlight app].
  destruct (String.eqb (type m) "LOG_SCORE") eqn:E.
  - destruct (String.eqb (type m) "GET_SETTINGS") eqn:E1.
    { apply String.eqb_eq in E, E1. rewrite E in E1. discriminate. }
    destruct (String.eqb (type m) "SAVE_SETTINGS") eqn:E2.
    { apply String.eqb_eq in E, E2. rewrite E in E2. discriminate. }
    destruct (truthy (payload m)); [|reflexivity].
    cbn [inFlight storage nth_error resume fst]. unfold logScoreHistory.
    destruct (iterate _); reflexivity.
  - cbn [inFlight nth_error].
    destruct (String.eqb (type m) "GET_SETTINGS");
      [|destruct (String.eqb (type m) "SAVE_SETTINGS")]; reflexivity.
Qed.

Lemma inTurn_cons (m : RuntimeMessage) (ms : list RuntimeMessage) (st : Store) :
  run D (inTurn (m :: ms)) (idle st)
  = run D (inTurn ms) (idle (fst (onMessage D m st))).
Proof.
  change (inTurn (m :: ms)) with (inTurn [m] ++ inTurn ms)%list.
  rewrite run_app, inTurn_one. reflexivity.
Qed.

Lemma inTurn_logs (es : list JSVal) :
  forall (e : JSVal) (st : Store) (h : list JSVal),
    getProp "scoreHistory" st = VArr h
    \/ (getProp "scoreHistory" st = VUndefined /\ h = []) ->
    Forall (fun v => truthy v = true) (e :: es) ->
    inFlight (run D (inTurn (map (mkMessage "LOG_SCORE") (e :: es))) (idle st))
    = []
    /\ getProp "scoreHistory"
         (storage
            (run D (inTurn (map (mkMessage "LOG_SCORE") (e :: es))) (idle st)))
       = VArr (sliceLast 100 (h ++ e :: es))
    /\ getProp "settings"
         (storage
            (run D (inTurn (map (mkMessage "LOG_SCORE") (e :: es))) (idle st)))
       = getProp "settings" st.
Proof.
  induction es as [|e' es IH]; intros e st h Hh Hes.
  - inversion Hes as [|? ? He _]; subst.
    cbn [map]. rewrite inTurn_one. cbn [idle inFlight storage].
    split; [reflexivity|]. split.
    + rewrite (@handle_log e st h He Hh). apply getProp_setProp_same.
    + apply handle_log_settings.
  - inversion Hes as [|? ? He Hes']; subst.
    cbn [map]. rewrite inTurn_cons.
    destruct (IH e' (fst (onMessage D (mkMessage "LOG_SCORE" e) st))
                (sliceLast 100 (h ++ [e]))) as (H0 & H1 & H2).
    + left. rewrite (@handle_log e st h He Hh). apply getProp_setProp_same.
    + exact Hes'.
    + cbn [map] in H0, H1, H2. split; [exact H0|]. split.
      * rewrite H1, sliceLast_again, <- app_assoc. reflexivity.
      * rewrite H2. apply handle_log_settings.
Qed.

(** Two calls that both read before either writes: the entry of the call
    that writes first is lost. *)
Lemma overlapping_logs (e e' : JSVal) (st : Store) (h : list JSVal) :
  getProp "scoreHistory" st = VArr h
  \/ (getProp "scoreHistory" st = VUndefined /\ h = []) ->
  truthy e = true -> truthy e' = true ->
  run D (overlapping (mkMessage "LOG_SCORE" e) (mkMessage "LOG_SCORE" e'))
    (idle st)
  = idle (setProp "scoreHistory" (VArr (sliceLast 100 (h ++ [e'])))
            (setProp "scoreHistory" (VArr (sliceLast 100 (h ++ [e]))) st)).
Proof.
  intros Hh He He'. unfold overlapping, run, idle.
  cbn [fold_left step receive type payload String.eqb Ascii.eqb Bool.eqb
       storage inFlight app].
  rewrite He. cbn [storage inFlight app]. rewrite He'.
  cbn [storage inFlight app nth_error].
  assert (R : forall x,
             resume (awaitingGet x) st
             = (st, Some (awaitingSet (sliceLast 100 (h ++ [x]))))).
  { intros x. unfold resume. destruct Hh as [->|[-> ->]]; reflexivity. }
  rewrite R. cbn [storage inFlight app nth_error firstn skipn].
  rewrite R. cbn [storage inFlight app nth_error firstn skipn resume].
  reflexivity.
Qed.

End WithDefaults.

(** X7. LOG_SCORE messages that do not overlap (each call of
    [logScoreHistory] has finished before the next message arrives) leave
    as score history the last 100 of the entries held before followed by
    the logged ones in order: never more than 100, dropped from the old
    end only; the history tab then lists the newest entry first, and the
    stored settings are untouched.  The listener does not await the call:
    when a second message arrives before the first call has read the
    history and both read before either writes, the first entry is lost. *)
Theorem score_history_last_100_in_turn
    (D : JSObject) (st : Store) (h : list JSVal) (e : JSVal)
    (es : list JSVal) :
  getProp "scoreHistory" st = VArr h
  \/ (getProp "scoreHistory" st = VUndefined /\ h = []) ->
  Forall (fun v => truthy v = true) (e :: es) ->
  inFlight (run D (inTurn (map (mkMessage "LOG_SCORE") (e :: es))) (idle st))
  = []
  /\ getProp "scoreHistory"
       (storage
          (run D (inTurn (map (mkMessage "LOG_SCORE") (e :: es))) (idle st)))
     = VArr (sliceLast 100 (h ++ e :: es))
  /\ (List.length (sliceLast 100 (h ++ e :: es)) <= 100)%nat
  /\ (exists older, h ++ e :: es = older ++ sliceLast 100 (h ++ e :: es))
  /\ hd_error
       (Popup.historyView
          (getProp "scoreHistory"
             (storage
                (run D (inTurn (map (mkMessage "LOG_SCORE") (e :: es)))
                   (idle st)))))
     = Some (last (e :: es) e)
  /\ getProp "settings"
       (storage
          (run D (inTurn (map (mkMessage "LOG_SCORE") (e :: es))) (idle st)))
     = getProp "settings" st
  /\ (forall e',
         truthy e' = true ->
         inFlight
           (run D (overlapping (mkMessage "LOG_SCORE" e)
                     (mkMessage "LOG_SCORE" e'))
              (idle st))
         = []
         /\ getProp "scoreHistory"
              (storage
                 (run D (overlapping (mkMessage "LOG_SCORE" e)
                           (mkMessage "LOG_SCORE" e'))
                    (idle st)))
            = VArr (sliceLast 100 (h ++ [e']))).
Proof.
  intros Hh Hes.
  destruct (@inTurn_logs D es e st h Hh Hes) as (H0 & H1 & H2).
  split; [exact H0|]. split; [exact H1|].
  split; [|split; [|split; [|split; [exact H2|]]]].
  - rewrite sliceLast_length. lia.
  - apply sliceLast_suffix.
  - rewrite H1. cbn [Popup.historyView].
    assert (Hne : e :: es <> []) by discriminate.
    rewrite (app_removelast_last e Hne) at 1.
    rewrite app_assoc.
    destruct (@sliceLast_last 100 (h ++ removelast (e :: es))
                (last (e :: es) e) ltac:(lia)) as [front ->].
    rewrite rev_app_distr. reflexivity.
  - intros e' He'. inversion Hes as [|? ? He _]; subst.
    rewrite (@overlapping_logs D e e' st h Hh He He').
    cbn [idle inFlight storage]. split; [reflexivity|].
    apply getProp_setProp_same.
Qed.

(** X8. The message listener: GET_SETTINGS after SAVE_SETTINGS answers
    the saved payload; with nothing stored it answers the defaults; it
    never changes the storage area; SAVE_SETTINGS leaves the score history
    alone; and any other message type than the three handled ones is
    answered with the unknown-type error and changes nothing. *)
Theorem settings_round_trip
    (D : JSObject) (st : Store) (p : JSVal) (m : RuntimeMessage) :
  (truthy p = true ->
   snd (onMessage D (mkMessage "GET_SETTINGS" VUndefined)
          (fst (onMessage D (mkMessage "SAVE_SETTINGS" p) st)))
   = p)
  /\ (getProp "settings" st = VUndefined ->
      snd (onMessage D (mkMessage "GET_SETTINGS" VUndefined) st) = VObj D)
  /\ fst (onMessage D (mkMessage "GET_SETTINGS" VUndefined) st) = st
  /\ getProp "scoreHistory"
       (fst (onMessage D (mkMessage "SAVE_SETTINGS" p) st))
     = getProp "scoreHistory" st
  /\ (type m <> "GET_SETTINGS" -> type m <> "SAVE_SETTINGS" ->
      type m <> "LOG_SCORE" ->
      onMessage D m st = (st, unknownType)).
Proof.
  split; [|split; [|split; [|split]]].
  - intros Hp. unfold onMessage.
    cbn [type payload String.eqb Ascii.eqb Bool.eqb fst snd].
    rewrite getProp_setProp_same. unfold jsOr. now rewrite Hp.
  - intros Hs. unfold onMessage.
    cbn [type payload String.eqb Ascii.eqb Bool.eqb fst snd].
    rewrite Hs. reflexivity.
  - reflexivity.
  - unfold onMessage.
    cbn [type payload String.eqb Ascii.eqb Bool.eqb fst snd].
    apply getProp_setProp_other. discriminate.
  - intros H1 H2 H3. unfold onMessage.
    apply String.eqb_neq in H1, H2, H3. now rewrite H1, H2, H3.
Qed.

(** ** The update migration *)

Section Migration.
Variable D : JSObject.
Hypothesis wfD : NoDup (keys D).

Lemma onInstalled_update (st : Store) :
  truthy (getProp "settings" st) = true ->
  onInstalled D "update" st
  = setProp "settings"
      (VObj (migrate D (getProp "settings" st)
               (isActiveUser (getProp "scoreHistory" st))))
      st.
Proof.
  intros H. unfold onInstalled.
  cbn [String.eqb Ascii.eqb Bool.eqb]. rewrite H. reflexivity.
Qed.

Lemma getProp_defaults k : getProp k (spread [] (VObj D)) = getProp k D.
Proof.
  rewrite (@getProp_spread k [] D wfD).
  destruct (in_dec string_dec k (keys D)) as [|Hn]; [reflexivity|].
  simpl. symmetry. now apply getProp_absent.
Qed.

Lemma getProp_migrate_other (s : JSObject) (active : bool) k :
  NoDup (keys s) -> ~ In k MIGRATED_FIELDS ->
  getProp k (migrate D (VObj s) active)
  = if in_dec string_dec k (keys s) then getProp k s else getProp k D.
Proof.
  intros Hs Hk. unfold migrate.
  rewrite !getProp_setProp_other
    by (intros <-; apply Hk; unfold MIGRATED_FIELDS; simpl; tauto).
  rewrite (@getProp_spread k _ s Hs).
  destruct (in_dec string_dec k (keys s)); [reflexivity|].
  apply getProp_defaults.
Qed.

Lemma coalesce_idem a d d' :
  nullish d = false -> coalesce (coalesce a d) d' = coalesce a d.
Proof.
  intros Hd. unfold coalesce.
  destruct (nullish a) eqn:E; [now rewrite Hd | now rewrite E].
Qed.

Lemma NoDup_migrate settings active : NoDup (keys (migrate D settings active)).
Proof.
  unfold migrate. repeat apply NoDup_setProp.
  repeat apply NoDup_spread. constructor.
Qed.

Lemma keys_migrate_defaults settings active k :
  In k (keys D) -> In k (keys (migrate D settings active)).
Proof.
  intros H. unfold migrate. rewrite !keys_setProp.
  right; right; right. unfold spread. rewrite !keys_fold. simpl. tauto.
Qed.

End Migration.

(** X9. An update keeps every setting the user has stored and fills in
    the missing ones from the defaults; of the three migrated fields a
    stored value other than null wins, and a missing [onboardingCompleted]
    becomes whether there is a score history.  The history is untouched,
    and running the migration a second time changes no setting. *)
Theorem update_keeps_stored_settings
    (D s : JSObject) (st : Store) :
  NoDup (keys D) -> NoDup (keys s) ->
  getProp "settings" st = VObj s ->
  exists m,
    getProp "settings" (onInstalled D "update" st) = VObj m
    /\ (forall k, ~ In k MIGRATED_FIELDS ->
                  getProp k m
                  = if in_dec string_dec k (keys s)
                    then getProp k s else getProp k D)
    /\ getProp "onboardingCompleted" m
       = coalesce (getProp "onboardingCompleted" s)
           (VBool (isActiveUser (getProp "scoreHistory" st)))
    /\ getProp "aiConsentAccepted" m
       = coalesce (getProp "aiConsentAccepted" s) (VBool false)
    /\ getProp "animationsEnabled" m
       = coalesce (getProp "animationsEnabled" s) (VBool true)
    /\ getProp "scoreHistory" (onInstalled D "update" st)
       = getProp "scoreHistory" st
    /\ exists m',
         getProp "settings"
           (onInstalled D "update" (onInstalled D "update" st))
         = VObj m'
         /\ forall k, getProp k m' = getProp k m.
Proof.
  intros wfD wfs Hs.
  assert (E1 : onInstalled D "update" st
               = setProp "settings"
                   (VObj (migrate D (VObj s)
                            (isActiveUser (getProp "scoreHistory" st))))
                   st).
  { rewrite onInstalled_update by (rewrite Hs; reflexivity).
    now rewrite Hs. }
  set (act := isActiveUser (getProp "scoreHistory" st)) in *.
  set (m := migrate D (VObj s) act) in *.
  assert (Hh : getProp "scoreHistory" (onInstalled D "update" st)
               = getProp "scoreHistory" st).
  { rewrite E1. apply getProp_setProp_other. discriminate. }
  exists m. rewrite E1 at 1. rewrite getProp_setProp_same.
  split; [reflexivity|].
  split; [intros k Hk; now apply getProp_migrate_other|].
  assert (HC : getProp "onboardingCompleted" m
               = coalesce (getProp "onboardingCompleted" s) (VBool act)).
  { unfold m, migrate.
    rewrite !getProp_setProp_other by discriminate.
    apply getProp_setProp_same. }
  assert (HB : getProp "aiConsentAccepted" m
               = coalesce (getProp "aiConsentAccepted" s) (VBool false)).
  { unfold m, migrate.
    rewrite getProp_setProp_other by discriminate.
    apply getProp_setProp_same. }
  assert (HA : getProp "animationsEnabled" m
               = coalesce (getProp "animationsEnabled" s) (VBool true)).
  { unfold m, migrate. apply getProp_setProp_same. }
  split; [exact HC|]. split; [exact HB|]. split; [exact HA|].
  split; [exact Hh|].
  assert (Hset : getProp "settings" (onInstalled D "update" st) = VObj m)
    by (rewrite E1; apply getProp_setProp_same).
  rewrite (@onInstalled_update D (onInstalled D "update" st))
    by (rewrite Hset; reflexivity).
  rewrite Hset, Hh. fold act.
  exists (migrate D (VObj m) act). rewrite getProp_setProp_same.
  split; [reflexivity|]. intros k.
  assert (wfm : NoDup (keys m)) by apply NoDup_migrate.
  destruct (in_dec string_dec k MIGRATED_FIELDS) as [Hin|Hout].
  - unfold MIGRATED_FIELDS in Hin. simpl in Hin.
    destruct Hin as [<-|[<-|[<-|[]]]].
    + unfold migrate at 1.
      rewrite !getProp_setProp_other by discriminate.
      rewrite getProp_setProp_same. cbn [member].
      rewrite HC. now apply coalesce_idem.
    + unfold migrate at 1.
      rewrite getProp_setProp_other by discriminate.
      rewrite getProp_setProp_same. cbn [member].
      rewrite HB. now apply coalesce_idem.
    + unfold migrate at 1.
      rewrite getProp_setProp_same. cbn [member].
      rewrite HA. now apply coalesce_idem.
  - rewrite (@getProp_migrate_other D wfD m act k wfm Hout).
    destruct (in_dec string_dec k (keys m)) as [|Hn]; [reflexivity|].
    rewrite (@getProp_absent k m Hn).
    apply getProp_absent. intros HinD. apply Hn.
    now apply keys_migrate_defaults.
Qed.

End BackgroundFacts.

(* ================================================================== *)
(** * The consent guard and the settings check *)
(* ================================================================== *)

Module ConsentFacts.

Import JSFacts Runtime.
Local Open Scope string_scope.
Local Open Scope list_scope.


(** X11. Once the modal has been accepted, a later [withConsent] call
    runs its action without opening the modal, as long as the first action
    left the consent key alone; after [handleRevokeAIConsent] the modal is
    asked again, and declining it rejects with "Consent declined". *)
Theorem consent_persists_until_revoked
    (T U : Type) (action : Async T) (later : Async U)
    (showModal showAgain : Async bool) (st st1 : Store) :
  isTrue (getProp DEFAULT_CONSENT_KEY st) = false ->
  showModal st = (st1, inr true) ->
  (forall s, getProp DEFAULT_CONSENT_KEY (fst (action s))
             = getProp DEFAULT_CONSENT_KEY s) ->
  withConsent later DEFAULT_CONSENT_KEY showAgain
    (fst (withConsent action DEFAULT_CONSENT_KEY showModal st))
  = later (fst (withConsent action DEFAULT_CONSENT_KEY showModal st))
  /\ (forall (showThird : Async bool) st2,
         showThird
           (Popup.revokeAIConsent
              (fst (withConsent action DEFAULT_CONSENT_KEY showModal st)))
         = (st2, inr false) ->
         withConsent later DEFAULT_CONSENT_KEY showThird
           (Popup.revokeAIConsent
              (fst (withConsent action DEFAULT_CONSENT_KEY showModal st)))
         = (st2, inl "Consent declined")).
Proof.
  intros Hno Hyes Hkeep.
  assert (E : withConsent action DEFAULT_CONSENT_KEY showModal st
              = action (setProp DEFAULT_CONSENT_KEY (VBool true) st1)).
  { unfold withConsent. now rewrite Hno, Hyes. }
  rewrite E. split.
  - unfold withConsent at 1.
    rewrite Hkeep, getProp_setProp_same. reflexivity.
  - intros showThird st2 Hthird. unfold withConsent.
    unfold Popup.revokeAIConsent in *. unfold DEFAULT_CONSENT_KEY in *.
    rewrite getProp_setProp_same. cbn [isTrue].
    now rewrite Hthird.
Qed.

End ConsentFacts.

Module DiagnosticsFacts.

Import JSFacts Runtime Diagnostics.
Local Open Scope string_scope.
Local Open Scope list_scope.

Lemma send_delivered D ch m st :
  runtimeAvailable ch = true -> lastError ch = None ->
  sendRuntimeMessage D ch m st
  = (fst (Background.onMessage D m st),
     inr (snd (Background.onMessage D m st))).
Proof.
  intros Ha He. unfold sendRuntimeMessage. rewrite Ha, He. simpl.
  destruct (Background.onMessage D m st); reflexivity.
Qed.

Lemma jsOr_not_nullish (a : JSVal) (o : JSObject) :
  nullish (jsOr a (VObj o)) = false.
Proof.
  destruct a as [| |b|q|s|l|props]; try reflexivity.
  - destruct b; reflexivity.
  - unfold jsOr. destruct (truthy (VNum q)); reflexivity.
  - unfold jsOr. destruct (truthy (VStr s)); reflexivity.
Qed.

(** X12. [checkSettings] with the runtime reachable always offers a fix;
    once the fix has run, on whatever the storage area holds by then, the
    next check passes with the message of an enabled extension, the score
    history is untouched, and every other field of the settings the first
    check read is stored as it was read. *)
Theorem settings_fix_makes_check_pass
    (D : JSObject) (ch : Channel) (st st2 : Store) :
  runtimeAvailable ch = true -> lastError ch = None ->
  exists repair st3,
    onFix (snd (checkSettings D ch st)) = Some repair
    /\ repair st2 = (st3, inr tt)
    /\ passed (snd (checkSettings D ch st3)) = VBool true
    /\ message (snd (checkSettings D ch st3))
       = "Extension enabled and overlay visible"
    /\ getProp "scoreHistory" st3 = getProp "scoreHistory" st2
    /\ (forall s k,
           jsOr (getProp "settings" st) (VObj D) = VObj s ->
           NoDup (keys s) ->
           k <> "enabled" -> k <> "showScoreInComposer" ->
           member (getProp "settings" st3) k = getProp k s).
Proof.
  intros Ha He. unfold checkSettings.
  rewrite (@send_delivered D ch _ st Ha He).
  set (settings := jsOr (getProp "settings" st) (VObj D)).
  assert (Hget : Background.onMessage D
                   (Background.mkMessage "GET_SETTINGS" VUndefined) st
                 = (st, settings)) by reflexivity.
  assert (Hnull : nullish settings = false) by apply jsOr_not_nullish.
  rewrite !Hget. cbn [fst snd]. rewrite Hnull.
  cbn [fst snd onFix].
  set (fixed := setProp "showScoreInComposer" (VBool true)
                  (setProp "enabled" (VBool true) (spread [] settings))).
  assert (Hsend : sendRuntimeMessage D ch
                    (Background.mkMessage "SAVE_SETTINGS" (VObj fixed)) st2
                  = (setProp "settings" (VObj fixed) st2,
                     inr Background.success)).
  { rewrite (@send_delivered D ch _ st2 Ha He). reflexivity. }
  eexists. exists (setProp "settings" (VObj fixed) st2).
  split; [reflexivity|].
  split; [cbv beta; now rewrite Hsend|].
  rewrite (@send_delivered D ch _ (setProp "settings" (VObj fixed) st2) Ha He).
  unfold Background.onMessage.
  cbn [Background.type Background.payload String.eqb Ascii.eqb Bool.eqb
       fst snd passed message].
  rewrite getProp_setProp_same. cbn [jsOr truthy member nullish].
  cbn [fst snd passed message member].
  assert (E1 : getProp "enabled" fixed = VBool true).
  { unfold fixed. rewrite getProp_setProp_other by discriminate.
    apply getProp_setProp_same. }
  assert (E2 : getProp "showScoreInComposer" fixed = VBool true)
    by (unfold fixed; apply getProp_setProp_same).
  rewrite E1, E2. cbn [jsAnd truthy].
  split; [reflexivity|]. split; [reflexivity|].
  split; [apply getProp_setProp_other; discriminate|].
  intros s k Hs Hnd Hk1 Hk2. unfold fixed. rewrite Hs.
  rewrite !getProp_setProp_other by congruence.
  rewrite (@getProp_spread k [] s Hnd).
  destruct (in_dec string_dec k (keys s)) as [|Hn]; [reflexivity|].
  simpl. symmetry. now apply getProp_absent.
Qed.

End DiagnosticsFacts.

(* ================================================================== *)
(** * The overlay and the history tab *)
(* ================================================================== *)

Module OverlayFacts.

Import Overlay.
Local Open Scope string_scope.
Local Open Scope list_scope.
Local Open Scope Z_scope.

Lemma hd_insertSorted (x : Engine.Suggestion) (l : list Engine.Suggestion) :
  hd_error (insertSorted compareSuggestions x l)
  = match l with
    | [] => Some x
    | y :: _ => if impactOf x <? impactOf y then Some y else Some x
    end.
Proof.
  destruct l as [|y l]; simpl; [reflexivity|].
  unfold compareSuggestions, impactOf.
  replace (0 <? weight (Engine.impact y) - weight (Engine.impact x))
    with (weight (Engine.impact x) <? weight (Engine.impact y)).
  - destruct (_ <? _); reflexivity.
  - destruct (Z.ltb_spec (weight (Engine.impact x)) (weight (Engine.impact y)));
      destruct (Z.ltb_spec 0 (weight (Engine.impact y) - weight (Engine.impact x)));
      try reflexivity; lia.
Qed.

(** The head of the sorted list is the first element of greatest impact. *)
Lemma hd_sorted_first_max (l : list Engine.Suggestion) :
  match hd_error (sortBy compareSuggestions l) with
  | None => l = []
  | Some s =>
      exists pre post,
        l = pre ++ s :: post
        /\ Forall (fun x => impactOf x < impactOf s) pre
        /\ Forall (fun x => impactOf x <= impactOf s) post
  end.
Proof.
  induction l as [|x l IH]; [reflexivity|].
  cbn [sortBy fold_right]. rewrite hd_insertSorted.
  change (fold_right (insertSorted compareSuggestions) [] l)
    with (sortBy compareSuggestions l).
  destruct (sortBy compareSuggestions l) as [|y rest] eqn:E.
  - simpl in IH. subst l. exists [], []. repeat split; constructor.
  - simpl in IH. destruct IH as (pre & post & -> & Hpre & Hpost).
    destruct (Z.ltb_spec (impactOf x) (impactOf y)) as [Hlt|Hge].
    + exists (x :: pre), post. repeat split; auto.
    + exists [], (pre ++ y :: post). repeat split; [constructor|].
      apply Forall_app. split.
      * eapply Forall_impl; [|exact Hpre]. intros a Ha. simpl in Ha. lia.
      * constructor; [exact Hge|].
        eapply Forall_impl; [|exact Hpost]. intros a Ha. simpl in Ha. lia.
Qed.

(** The function given to [useMemo]: null exactly when suggestions are
    switched off, there is no score or the score has no suggestion;
    otherwise the first suggestion of the highest impact. *)
Lemma computeTopSuggestion_first_max
    (show : bool) (sc0 : option Engine.TweetScore) :
  (computeTopSuggestion show sc0 = None
   <-> show = false \/ sc0 = None
       \/ exists sc, sc0 = Some sc /\ Engine.suggestions sc = [])
  /\ forall s,
       computeTopSuggestion show sc0 = Some s ->
       exists sc pre post,
         sc0 = Some sc
         /\ Engine.suggestions sc = pre ++ s :: post
         /\ Forall (fun x => impactOf x < impactOf s) pre
         /\ Forall (fun x => impactOf x <= impactOf s) post.
Proof.
  unfold computeTopSuggestion.
  destruct show; cbn [negb].
  2:{ split; [tauto | discriminate]. }
  destruct sc0 as [sc|].
  2:{ split; [tauto | discriminate]. }
  pose proof (hd_sorted_first_max (Engine.suggestions sc)) as H.
  destruct (Engine.suggestions sc) as [|x l] eqn:E.
  - split; [|discriminate]. split; [|reflexivity].
    intros _. right; right. exists sc. auto.
  - destruct (hd_error (sortBy compareSuggestions (x :: l))) as [s|] eqn:Hs.
    + split.
      * split; [discriminate|].
        intros [Hf|[Hn|[sc' [Heq Hnil]]]]; try discriminate.
        injection Heq as <-. congruence.
      * intros s' Hs'. injection Hs' as <-.
        destruct H as (pre & post & Hl & Hpre & Hpost).
        exists sc, pre, post. rewrite E. auto.
    + discriminate H.
Qed.

(** The function reads the score through its suggestions only. *)
Lemma computeTopSuggestion_ext
    (show : bool) (s1 s2 : option Engine.TweetScore) :
  option_map Engine.suggestions s1 = option_map Engine.suggestions s2 ->
  computeTopSuggestion show s1 = computeTopSuggestion show s2.
Proof.
  unfold computeTopSuggestion.
  destruct s1 as [a|], s2 as [b|]; cbn [option_map]; intros E;
    try discriminate; [|reflexivity].
  injection E as E. rewrite E. reflexivity.
Qed.

Lemma sameDependency_iff (a b : option nat) :
  sameDependency a b = true <-> a = b.
Proof.
  destruct a as [x|], b as [y|]; cbn [sameDependency];
    try (split; [discriminate | intros H; discriminate H]);
    [|split; reflexivity].
  rewrite Nat.eqb_eq. split; [intros ->; reflexivity | intros H; now injection H].
Qed.

Lemma rendered_snoc (front : list Render) (prev : Render) :
  rendered (front ++ [prev]) = Some (useMemo (rendered front) prev).
Proof. unfold rendered. rewrite fold_left_app. reflexivity. Qed.

(** After a render the cell holds the dependency of that render. *)
Lemma useMemo_dependency (cell : option Memo) (r : Render) :
  lastDependency (useMemo cell r) = suggestionsRef r.
Proof.
  unfold useMemo. destruct cell as [m|]; [|reflexivity].
  destruct (sameDependency (lastDependency m) (suggestionsRef r)) eqn:E;
    [|reflexivity].
  now apply sameDependency_iff.
Qed.

Lemma topSuggestion_recomputed (before : list Render) (r : Render) :
  before = []
  \/ (exists front prev,
         before = front ++ [prev]
         /\ suggestionsRef prev <> suggestionsRef r) ->
  topSuggestion before r
  = computeTopSuggestion (showSuggestions r) (score r).
Proof.
  unfold topSuggestion. intros [->|(front & prev & -> & Hne)];
    [reflexivity|].
  rewrite rendered_snoc. unfold useMemo at 1.
  rewrite useMemo_dependency.
  destruct (sameDependency (suggestionsRef prev) (suggestionsRef r)) eqn:E;
    [|reflexivity].
  apply sameDependency_iff in E. contradiction.
Qed.

Lemma topSuggestion_kept (before : list Render) (r r' : Render) :
  suggestionsRef r' = suggestionsRef r ->
  topSuggestion (before ++ [r]) r' = topSuggestion before r.
Proof.
  intros E. unfold topSuggestion. rewrite rendered_snoc.
  unfold useMemo at 1. rewrite useMemo_dependency.
  rewrite (proj2 (sameDependency_iff _ _) (eq_sym E)). reflexivity.
Qed.

Lemma topSuggestion_steady (before : list Render) :
  forall r,
    (forall r1, In r1 (before ++ [r]) ->
                showSuggestions r1 = showSuggestions r) ->
    (forall r1 r2, In r1 (before ++ [r]) -> In r2 (before ++ [r]) ->
                   unmutated r1 r2) ->
    topSuggestion before r
    = computeTopSuggestion (showSuggestions r) (score r).
Proof.
  induction before as [|prev front IH] using rev_ind; intros r Hshow Hmut.
  - apply topSuggestion_recomputed. left. reflexivity.
  - destruct (sameDependency (suggestionsRef prev) (suggestionsRef r)) eqn:E.
    + apply sameDependency_iff in E.
      rewrite (@topSuggestion_kept front prev r (eq_sym E)).
      rewrite IH.
      * rewrite (Hshow prev) by (rewrite !in_app_iff; simpl; auto).
        apply computeTopSuggestion_ext.
        apply (Hmut prev r); [| |exact E]; rewrite !in_app_iff; simpl; auto.
      * intros r1 H1.
        rewrite (Hshow r1) by (rewrite in_app_iff; auto).
        symmetry. apply Hshow. rewrite !in_app_iff; simpl; auto.
      * intros r1 r2 H1 H2. apply Hmut; rewrite in_app_iff; auto.
    + apply topSuggestion_recomputed. right. exists front, prev.
      split; [reflexivity|]. intros H.
      apply (proj2 (sameDependency_iff _ _)) in H. congruence.
Qed.

(** X13. [topSuggestion] is a memo keyed on the array [score?.suggestions]
    alone.  At the first render, at a render whose array is another one
    than at the render before, and at every render as long as
    [showSuggestions] has not changed and no array was changed in place, it
    is what the function computes from the current props: null exactly
    when suggestions are switched off, there is no score or the score has
    no suggestion, otherwise the first suggestion of the highest impact.
    At a render with the same array as the render before it keeps its
    value, also when [showSuggestions] has changed. *)
Theorem top_suggestion_memo_first_of_highest_impact
    (before : list Render) (r : Render) :
  (before = []
   \/ (exists front prev,
          before = front ++ [prev]
          /\ suggestionsRef prev <> suggestionsRef r)
   \/ ((forall r1, In r1 (before ++ [r]) ->
                   showSuggestions r1 = showSuggestions r)
       /\ (forall r1 r2, In r1 (before ++ [r]) -> In r2 (before ++ [r]) ->
                         unmutated r1 r2)) ->
   (topSuggestion before r = None
    <-> showSuggestions r = false \/ score r = None
        \/ exists sc, score r = Some sc /\ Engine.suggestions sc = [])
   /\ forall s,
        topSuggestion before r = Some s ->
        exists sc pre post,
          score r = Some sc
          /\ Engine.suggestions sc = pre ++ s :: post
          /\ Forall (fun x => impactOf x < impactOf s) pre
          /\ Forall (fun x => impactOf x <= impactOf s) post)
  /\ (forall r',
         suggestionsRef r' = suggestionsRef r ->
         topSuggestion (before ++ [r]) r' = topSuggestion before r).
Proof.
  split; [|intros r' E; now apply topSuggestion_kept].
  intros H.
  assert (E : topSuggestion before r
              = computeTopSuggestion (showSuggestions r) (score r)).
  { destruct H as [H|[H|[H1 H2]]].
    - apply topSuggestion_recomputed. left. exact H.
    - apply topSuggestion_recomputed. right. exact H.
    - now apply topSuggestion_steady. }
  rewrite E. apply computeTopSuggestion_first_max.
Qed.

(** X14. On a rendered tab, ArrowRight activates the next tab and
    ArrowLeft the previous one, wrapping around at both ends; both always
    land on a tab of the list, each undoes the other, and any other key
    leaves the active tab as it is. *)
Theorem tab_arrows_wrap_and_invert
    (showSuggestions : bool) (idx : nat) (activeTab : Tab) (key : string) :
  (idx < List.length (tabs showSuggestions))%nat ->
  onTabKeyDown (tabs showSuggestions) idx "ArrowRight" activeTab
  = nth_error (tabs showSuggestions)
      ((idx + 1) mod List.length (tabs showSuggestions))
  /\ onTabKeyDown (tabs showSuggestions) idx "ArrowLeft" activeTab
     = nth_error (tabs showSuggestions)
         ((idx + List.length (tabs showSuggestions) - 1)
          mod List.length (tabs showSuggestions))
  /\ (exists r l,
         onTabKeyDown (tabs showSuggestions) idx "ArrowRight" activeTab
         = Some r
         /\ onTabKeyDown (tabs showSuggestions) idx "ArrowLeft" activeTab
            = Some l
         /\ In r (tabs showSuggestions) /\ In l (tabs showSuggestions))
  /\ (((idx + 1) mod List.length (tabs showSuggestions)
       + List.length (tabs showSuggestions) - 1)
      mod List.length (tabs showSuggestions) = idx)%nat
  /\ (((idx + List.length (tabs showSuggestions) - 1)
       mod List.length (tabs showSuggestions) + 1)
      mod List.length (tabs showSuggestions) = idx)%nat
  /\ (key <> "ArrowLeft" -> key <> "ArrowRight" ->
      onTabKeyDown (tabs showSuggestions) idx key activeTab
      = Some activeTab).
Proof.
  intros Hidx.
  assert (Hother : key <> "ArrowLeft" -> key <> "ArrowRight" ->
                   onTabKeyDown (tabs showSuggestions) idx key activeTab
                   = Some activeTab).
  { intros H1 H2. unfold onTabKeyDown.
    apply String.eqb_neq in H1, H2. now rewrite H1, H2. }
  destruct showSuggestions; simpl in Hidx;
    (destruct idx as [|[|[|idx]]]; try lia);
    repeat split; try exact Hother;
    try (vm_compute; reflexivity);
    try (eexists; eexists; repeat split; try reflexivity; simpl; tauto).
Qed.

End OverlayFacts.

Module PopupFacts.

Import JSFacts Popup.
Local Open Scope string_scope.
Local Open Scope Z_scope.

(** X15. [formatTime] shows whole elapsed minutes, hours or days, rounded
    down: "just now" below one minute (and for timestamps in the future),
    1 to 59 minutes, 1 to 23 hours, then days.  The difference stays within
    the span of time values (8.64e15 ms), where the Number divisions
    followed by [Math.floor] are exact. *)
Theorem formatTime_whole_units (now ts : Z) :
  now - ts <= 8640000000000000 ->
  (now - ts < 60000 -> formatTime now (Some ts) = "just now")
  /\ (60000 <= now - ts < 3600000 ->
      formatTime now (Some ts) = decimal ((now - ts) / 60000) ++ "m ago"
      /\ 1 <= (now - ts) / 60000 <= 59)
  /\ (3600000 <= now - ts < 86400000 ->
      formatTime now (Some ts) = decimal ((now - ts) / 3600000) ++ "h ago"
      /\ 1 <= (now - ts) / 3600000 <= 23)
  /\ (86400000 <= now - ts ->
      formatTime now (Some ts) = decimal ((now - ts) / 86400000) ++ "d ago"
      /\ 1 <= (now - ts) / 86400000).
Proof.
  intros _. unfold formatTime. cbv zeta.
  set (d := now - ts).
  assert (E1 : d / 1000 / 60 = d / 60000)
    by (rewrite Z.div_div by lia; reflexivity).
  assert (E2 : d / 1000 / 60 / 60 = d / 3600000)
    by (rewrite !Z.div_div by lia; reflexivity).
  assert (E3 : d / 1000 / 60 / 60 / 24 = d / 86400000)
    by (rewrite !Z.div_div by lia; reflexivity).
  rewrite E3, E2, E1. clearbody d. clear E1 E2 E3.
  destruct (Z.ltb_spec (d / 1000) 60) as [A|A];
    [|destruct (Z.ltb_spec (d / 60000) 60) as [B|B];
      [|destruct (Z.ltb_spec (d / 3600000) 24) as [C|C]]];
    repeat split; intros; try reflexivity;
    try (exfalso; Z.div_mod_to_equations; lia);
    try (Z.div_mod_to_equations; lia).
Qed.

(** X16. After [clearHistory] the history tab is empty and the settings
    are as they were; the next logged score becomes the only entry; and an
    update arriving before that takes the user for an inactive one. *)
Theorem clear_history_starts_afresh
    (D : JSObject) (st : Store) (e : JSVal) :
  historyView (getProp "scoreHistory" (clearHistory st)) = []
  /\ getProp "settings" (clearHistory st) = getProp "settings" st
  /\ (truthy e = true ->
      getProp "scoreHistory"
        (fst (Background.onMessage D (Background.mkMessage "LOG_SCORE" e)
                (clearHistory st)))
      = VArr [e])
  /\ Background.isActiveUser (getProp "scoreHistory" (clearHistory st))
     = false.
Proof.
  unfold clearHistory.
  assert (E : getProp "scoreHistory" (removeProp "scoreHistory" st)
              = VUndefined) by apply getProp_removeProp_same.
  rewrite E. split; [reflexivity|].
  split; [apply getProp_removeProp_other; discriminate|].
  split; [|reflexivity].
  intros He. unfold Background.onMessage.
  cbn [Background.type Background.payload String.eqb Ascii.eqb Bool.eqb fst].
  rewrite He. unfold Background.logScoreHistory. rewrite E.
  cbn [iterate app sliceLast List.length Nat.sub skipn].
  apply getProp_setProp_same.
Qed.

End PopupFacts.

(* ================================================================== *)
(** * The theorems above at sample inputs *)
(* ================================================================== *)

Module ExtensionWitnesses.

Import JSFacts ExtensionSamples.
Local Open Scope string_scope.
Local Open Scope list_scope.

Lemma punctuation_only_witness :
  wordless punctuationOnly
  /\ warnings (scanForControversy punctuationOnly) = [capsWarning]
  /\ riskLevel (scanForControversy punctuationOnly) = safe.
Proof.
  assert (H : wordless punctuationOnly) by (repeat constructor).
  destruct (@wordless_text_only_caps_rule punctuationOnly H) as [H1 H2].
  split; [exact H|]. split; [|exact H2].
  rewrite H1. reflexivity.
Defined.

Lemma score_history_witness :
  getProp "scoreHistory"
    (Background.storage
       (Background.run sampleDefaults
          (Background.inTurn
             (map (Background.mkMessage "LOG_SCORE")
                [secondEntry; thirdEntry]))
          (Background.idle legacyStore)))
  = VArr [firstEntry; secondEntry; thirdEntry]
  /\ getProp "scoreHistory"
       (Background.storage
          (Background.run sampleDefaults
             (Background.overlapping
                (Background.mkMessage "LOG_SCORE" secondEntry)
                (Background.mkMessage "LOG_SCORE" thirdEntry))
             (Background.idle legacyStore)))
     = VArr [firstEntry; thirdEntry].
Proof.
  assert (H1 : getProp "scoreHistory" legacyStore = VArr [firstEntry]
               \/ (getProp "scoreHistory" legacyStore = VUndefined
                   /\ [firstEntry] = []))
    by (left; reflexivity).
  assert (H2 : Forall (fun v => truthy v = true) [secondEntry; thirdEntry])
    by (repeat constructor).
  destruct (@BackgroundFacts.score_history_last_100_in_turn
              sampleDefaults legacyStore [firstEntry] secondEntry
              [thirdEntry] H1 H2)
    as (_ & Hturn & _ & _ & _ & _ & Hover).
  split; [exact Hturn|].
  exact (proj2 (Hover thirdEntry eq_refl)).
Defined.

Lemma keys_distinct_defaults : NoDup (keys sampleDefaults).
Proof.
  repeat constructor; simpl; intuition discriminate.
Qed.

Lemma keys_distinct_legacy : NoDup (keys legacySettings).
Proof.
  repeat constructor; simpl; intuition discriminate.
Qed.

Lemma update_witness :
  exists m,
    getProp "settings" (Background.onInstalled sampleDefaults "update" legacyStore)
    = VObj m
    /\ getProp "enabled" m = VBool false
    /\ getProp "showSuggestions" m = VBool true
    /\ getProp "onboardingCompleted" m = VBool true.
Proof.
  destruct (@BackgroundFacts.update_keeps_stored_settings
              sampleDefaults legacySettings legacyStore
              keys_distinct_defaults keys_distinct_legacy eq_refl)
    as (m & Hm & Hother & Hon & _).
  exists m. split; [exact Hm|]. split; [|split].
  - rewrite Hother; [reflexivity|].
    unfold Background.MIGRATED_FIELDS. simpl. intuition discriminate.
  - rewrite Hother; [reflexivity|].
    unfold Background.MIGRATED_FIELDS. simpl. intuition discriminate.
  - rewrite Hon. reflexivity.
Defined.

Lemma consent_witness :
  Runtime.withConsent analysis Runtime.DEFAULT_CONSENT_KEY decliningModal
    (fst (Runtime.withConsent analysis Runtime.DEFAULT_CONSENT_KEY
            acceptingModal legacyStore))
  = analysis
      (fst (Runtime.withConsent analysis Runtime.DEFAULT_CONSENT_KEY
              acceptingModal legacyStore)).
Proof.
  exact (proj1 (@ConsentFacts.consent_persists_until_revoked
                  string string analysis analysis acceptingModal
                  decliningModal legacyStore legacyStore
                  eq_refl eq_refl (fun s => eq_refl))).
Defined.

Lemma settings_fix_witness :
  exists repair st3,
    Diagnostics.onFix
      (snd (Diagnostics.checkSettings sampleDefaults openChannel legacyStore))
    = Some repair
    /\ repair legacyStore = (st3, inr tt)
    /\ Diagnostics.passed
         (snd (Diagnostics.checkSettings sampleDefaults openChannel legacyStore))
       = VBool false
    /\ Diagnostics.passed
         (snd (Diagnostics.checkSettings sampleDefaults openChannel st3))
       = VBool true.
Proof.
  destruct (@DiagnosticsFacts.settings_fix_makes_check_pass
              sampleDefaults openChannel legacyStore legacyStore
              eq_refl eq_refl)
    as (repair & st3 & H1 & H2 & H3 & _).
  exists repair, st3. repeat split; try assumption.
Defined.

Lemma stale_suggestion_witness :
  Overlay.showSuggestions hiddenRender = false
  /\ Overlay.topSuggestion [shownRender] hiddenRender = Some dropLink.
Proof.
  split; [reflexivity|].
  exact (proj2 (@OverlayFacts.top_suggestion_memo_first_of_highest_impact
                  [] shownRender)
           hiddenRender eq_refl).
Defined.

Lemma tab_arrows_witness :
  Overlay.onTabKeyDown (Overlay.tabs true) 2 "ArrowRight" Overlay.tabFactors
  = nth_error (Overlay.tabs true) 0.
Proof.
  exact (proj1 (@OverlayFacts.tab_arrows_wrap_and_invert
                  true 2 Overlay.tabFactors "ArrowRight"
                  ltac:(simpl; lia))).
Defined.

Lemma format_time_witness :
  Popup.formatTime 1700003600000%Z (Some 1700000000000%Z) = "1h ago".
Proof.
  exact (proj1 (proj1 (proj2 (proj2
           (@PopupFacts.formatTime_whole_units 1700003600000%Z 1700000000000%Z
              ltac:(lia))))
           ltac:(lia))).
Defined.

End ExtensionWitnesses.
